(** * Freedom Clock (Heltec Vision Master E213)

    A shallow embedding of [Freedom_Clock_HeltecVME213.ino] and the
    properties of its wake cycle: the inflation-aware longevity
    simulation, the battery curve, the numeric sanitizer, the MQTT
    callback and the handling of the RTC-retained values.

    The sketch computes in C [float], which on the ESP32-S3 is IEEE 754
    binary32.  Floats are therefore modelled by [spec_float] at precision
    24 and maximal exponent 128, with the correctly rounded operations of
    the standard library's [SpecFloat]; every operation of the source is
    rounded on its own, in the order the source writes it. *)

From Stdlib Require Import ZArith QArith Qround List Bool String Ascii Lia.
From Stdlib Require Import Floats.SpecFloat.
From stdpp Require Import list.
Import ListNotations.

Local Open Scope Z_scope.

(* ================================================================== *)
(** * Part I: the model *)
(* ================================================================== *)

(** ** binary32 arithmetic *)

Module F32.

Definition prec : Z := 24.
Definition emax : Z := 128.

Definition float : Type := spec_float.

Definition add : float -> float -> float := SFadd prec emax.
Definition sub : float -> float -> float := SFsub prec emax.
Definition mul : float -> float -> float := SFmul prec emax.
Definition div : float -> float -> float := SFdiv prec emax.

(** The C comparisons; each is false as soon as an operand is a NaN. *)
Definition ltb (x y : float) : bool := SFltb x y.
Definition leb (x y : float) : bool := SFleb x y.
Definition gtb (x y : float) : bool := SFltb y x.
Definition geb (x y : float) : bool := SFleb y x.

(** Conversion [int -> float] (round to nearest even; exact below 2^24). *)
Definition of_int (z : Z) : float := binary_normalize prec emax z 0 false.

(** A decimal literal [n / 10^k] written with the [f] suffix: the binary32
    value nearest to the decimal.  Numerator and denominator are small
    integers, exactly representable, so the nearest value is their
    correctly rounded quotient. *)
Definition decimal (n : Z) (k : Z) : float := div (of_int n) (of_int (10 ^ k)).

Definition zero : float := S754_zero false.
Definition one : float := of_int 1.
Definition half : float := decimal 5 1.
Definition pinf : float := S754_infinity false.

(** Conversion [(int) x]: truncation toward zero.  C leaves the conversion
    of a NaN, of an infinity and of a value outside the range of [int]
    undefined; the model yields 0 for the first two and the unbounded
    truncation for the third. *)
Definition to_int (x : float) : Z :=
  match x with
  | S754_finite s m e =>
      let a := if 0 <=? e then Z.pos m * 2 ^ e else Z.pos m / 2 ^ (- e) in
      if s then - a else a
  | _ => 0
  end.

Definition is_nan (x : float) : bool :=
  match x with S754_nan => true | _ => false end.

End F32.

Abbreviation float := F32.float.

Declare Scope f32_scope.
Delimit Scope f32_scope with f32.
Infix "+" := F32.add : f32_scope.
Infix "-" := F32.sub : f32_scope.
Infix "*" := F32.mul : f32_scope.
Infix "/" := F32.div : f32_scope.
Infix "<?" := F32.ltb : f32_scope.
Infix "<=?" := F32.leb : f32_scope.
Infix ">?" := F32.gtb : f32_scope.
Infix ">=?" := F32.geb : f32_scope.

(** ** Configuration constants *)

(** [MONTHLY_EXP_USD = 10000.0f], [INFLATION_ANNUAL = 0.02f]. *)
Definition MONTHLY_EXP_USD : float := F32.of_int 10000.
Definition INFLATION_ANNUAL : float := F32.decimal 2 2.

(** [ADC_MAX = 4095.0f], [ADC_REF_V = 3.3f], [VBAT_SCALE = 4.9f]. *)
Definition ADC_MAX : float := F32.of_int 4095.
Definition ADC_REF_V : float := F32.decimal 33 1.
Definition VBAT_SCALE : float := F32.decimal 49 1.

(** ** Inflation-aware longevity calculation *)

(** The three [int&] out-parameters.  [int] has 32 bits on the target and
    no value below exceeds 73000, so [Z] without wrap-around is exact. *)
Record LongevityResult : Type := mkLongevity {
  outYears : Z;
  outMonths : Z;
  outWeeks : Z
}.

Definition no_longevity : LongevityResult := mkLongevity 0 0 0.

(** [static constexpr int MAX_DAYS = 365 * 200]. *)
Definition MAX_DAYS : Z := 365 * 200.

(** The variables the day loop updates. *)
Record sim : Type := mkSim {
  remaining : float;
  dailyExpense : float;
  days : Z
}.

(** One pass of
    [while (days < MAX_DAYS) { if (remaining < dailyExpense) break; ... }]:
    [None] when the loop is left (by its condition or by [break]),
    otherwise the variables after the body. *)
Definition day_step (dailyMul : float) (s : sim) : option sim :=
  if days s <? MAX_DAYS then
    if (remaining s <? dailyExpense s)%f32 then None
    else Some (mkSim (remaining s - dailyExpense s)%f32
                     (dailyExpense s * dailyMul)%f32
                     (days s + 1))
  else None.

(** The loop, run for at most [fuel] evaluations of its head.  [Some s]:
    the loop was left with variables [s]; [None]: the fuel ran out first. *)
Fixpoint day_loop (fuel : nat) (dailyMul : float) (s : sim) : option sim :=
  match fuel with
  | O => None
  | S fuel' =>
      match day_step dailyMul s with
      | None => Some s
      | Some s' => day_loop fuel' dailyMul s'
      end
  end.

(** The variables after [n] completed passes, if the loop runs that long. *)
Fixpoint after_days (n : nat) (dailyMul : float) (s : sim) : option sim :=
  match n with
  | O => Some s
  | S n' =>
      match day_step dailyMul s with
      | None => None
      | Some s' => after_days n' dailyMul s'
      end
  end.

(** Days -> years / months / weeks; [/] and [%] of C truncate. *)
Definition days_to_longevity (d : Z) : LongevityResult :=
  let outYears := Z.quot d 365 in
  let remDays := Z.rem d 365 in
  let outMonths := Z.quot remDays 30 in
  let remDays := Z.rem remDays 30 in
  let outWeeks := Z.quot remDays 7 in
  mkLongevity outYears outMonths outWeeks.

(** Fuel that lets the loop head be evaluated [MAX_DAYS + 1] times. *)
Definition day_fuel : nat := S (Z.to_nat MAX_DAYS).

Section Longevity.

(** [powf] of the C library, which is not part of the sketch. *)
Variable powf : float -> float -> float.

Definition dailyMul_of (inflationAnnual : float) : float :=
  let inflationAnnual :=
    if (inflationAnnual <? F32.zero)%f32 then F32.zero else inflationAnnual in
  powf (F32.one + inflationAnnual)%f32 (F32.one / F32.of_int 365)%f32.

Definition sim_start (usdWealth monthlyExpenseToday : float) : sim :=
  let dailyExpenseBase := (monthlyExpenseToday / F32.of_int 30)%f32 in
  mkSim usdWealth dailyExpenseBase 0.

(** [None] stands for a loop that does not come to an end. *)
Definition computeLongevityWithInflation
    (usdWealth monthlyExpenseToday inflationAnnual : float)
  : option LongevityResult :=
  if (usdWealth <=? F32.zero)%f32 || (monthlyExpenseToday <=? F32.zero)%f32
  then Some no_longevity
  else
    let dailyMul := dailyMul_of inflationAnnual in
    match day_loop day_fuel dailyMul (sim_start usdWealth monthlyExpenseToday) with
    | Some s => Some (days_to_longevity (days s))
    | None => None
    end.

End Longevity.

(** A stand-in for [powf] that is defined only where C fixes the value
    of the function whatever the library: [pow(1, y) = 1] for every [y]
    (C99 F.9.4.4).  Elsewhere it yields a NaN. *)
Definition powf_base_one (x y : float) : float :=
  match SFcompare x F32.one with
  | Some Eq => F32.one
  | _ => S754_nan
  end.

(** ** The simulation as the specification words it

    The depletion process of the specification, day by day, without any
    bound on the number of days: [runs_out mul rem exp d] holds when a
    balance [rem], spent at a daily expense that starts at [exp] and is
    multiplied by [mul] after every day, stops after exactly [d] days. *)
Inductive runs_out (dailyMul : float) : float -> float -> nat -> Prop :=
| runs_out_now : forall rem exp,
    (rem <? exp)%f32 = true -> runs_out dailyMul rem exp O
| runs_out_next : forall rem exp d,
    (rem <? exp)%f32 = false ->
    runs_out dailyMul (rem - exp)%f32 (exp * dailyMul)%f32 d ->
    runs_out dailyMul rem exp (S d).

(** The same process under the hard cap of the specification: at most
    [cap] days are simulated. *)
Fixpoint reference_days (cap : nat) (dailyMul rem exp : float) : nat :=
  match cap with
  | O => O
  | S cap' =>
      if (rem <? exp)%f32 then O
      else S (reference_days cap' dailyMul (rem - exp)%f32 (exp * dailyMul)%f32)
  end.

(** Years, months and weeks of a day count, by integer division. *)
Definition reference_calendar (d : Z) : LongevityResult :=
  mkLongevity (d / 365) ((d mod 365) / 30) (((d mod 365) mod 30) / 7).

Section Reference.

Variable powf : float -> float -> float.

Definition reference_dailyMul (annualInflation : float) : float :=
  let clamped :=
    if (annualInflation <? F32.zero)%f32 then F32.zero else annualInflation in
  powf (F32.one + clamped)%f32 (F32.one / F32.of_int 365)%f32.

(** The reference algorithm with its cap of 200 years of days. *)
Definition reference_simulate (wealth monthlyExpenseToday annualInflation : float)
  : LongevityResult :=
  reference_calendar
    (Z.of_nat (reference_days (Z.to_nat (365 * 200))
                 (reference_dailyMul annualInflation)
                 wealth (monthlyExpenseToday / F32.of_int 30)%f32)).

(** The reference algorithm as the bare day-by-day process: it yields a
    result only when the process stops. *)
Definition reference_unbounded (wealth monthlyExpenseToday annualInflation : float)
    (res : LongevityResult) : Prop :=
  exists d : nat,
    runs_out (reference_dailyMul annualInflation)
             wealth (monthlyExpenseToday / F32.of_int 30)%f32 d /\
    res = reference_calendar (Z.of_nat d).

End Reference.

(** The ranges the specification gives for a [LongevityResult]. *)
Definition spec_ranges (res : LongevityResult) : Prop :=
  0 <= outYears res /\ 0 <= outMonths res <= 11 /\ 0 <= outWeeks res <= 4.

(** The ranges the conversion of the sketch keeps. *)
Definition code_ranges (res : LongevityResult) : Prop :=
  0 <= outYears res /\ 0 <= outMonths res <= 12 /\ 0 <= outWeeks res <= 4.

(** ** Battery helpers *)

(** [static constexpr int NUM_POINTS = 8] and the two tables. *)
Definition NUM_POINTS : nat := 8.

Definition voltTable : list float :=
  [ F32.decimal 320 2; F32.decimal 330 2; F32.decimal 360 2; F32.decimal 375 2;
    F32.decimal 385 2; F32.decimal 395 2; F32.decimal 405 2; F32.decimal 415 2 ].

Definition socTable : list Z := [ 0; 2; 25; 50; 70; 90; 97; 100 ].

(** [voltTable[i]] and [socTable[i]]; every index used below is in range. *)
Definition voltAt (i : nat) : float := nth i voltTable S754_nan.
Definition socAt (i : nat) : Z := nth i socTable 0.

(** The body of the [for] loop at index [i], once its test has passed. *)
Definition interpolate_segment (v : float) (i : nat) : Z :=
  let v1 := voltAt i in
  let v2 := voltAt (i + 1) in
  let soc1 := socAt i in
  let soc2 := socAt (i + 1) in
  let t := ((v - v1) / (v2 - v1))%f32 in
  let soc := (F32.of_int soc1 + t * F32.of_int (soc2 - soc1))%f32 in
  let soc := if (soc <? F32.of_int 0)%f32 then F32.of_int 0 else soc in
  let soc := if (soc >? F32.of_int 100)%f32 then F32.of_int 100 else soc in
  F32.to_int (soc + F32.half)%f32.

(** [for (int i = 0; i < NUM_POINTS - 1; i++)], entered at index [i] with
    [todo] indices left; the [return 0] after the loop ends it. *)
Fixpoint scan_segments (v : float) (i todo : nat) : Z :=
  match todo with
  | O => 0
  | S todo' =>
      if (v >=? voltAt i)%f32 && (v <=? voltAt (i + 1))%f32
      then interpolate_segment v i
      else scan_segments v (S i) todo'
  end.

Definition batteryPercentFromVoltage (v : float) : Z :=
  if (v <=? voltAt 0)%f32 then socAt 0
  else if (v >=? voltAt (NUM_POINTS - 1))%f32 then socAt (NUM_POINTS - 1)
  else scan_segments v 0 (NUM_POINTS - 1).

(** [readBatteryVoltage], from the raw sample that [analogRead] returns;
    the pin operations around it carry no value. *)
Definition readBatteryVoltage (raw : Z) : float :=
  let v_adc := ((F32.of_int raw / ADC_MAX) * ADC_REF_V)%f32 in
  let v_batt := (v_adc * VBAT_SCALE)%f32 in
  v_batt.

(** ** The battery curve as the specification words it *)

(** The anchor table, ascending in voltage. *)
Definition anchor_table : list (float * Z) :=
  [ (F32.decimal 320 2, 0); (F32.decimal 330 2, 2); (F32.decimal 360 2, 25);
    (F32.decimal 375 2, 50); (F32.decimal 385 2, 70); (F32.decimal 395 2, 90);
    (F32.decimal 405 2, 97); (F32.decimal 415 2, 100) ].

(** Linear interpolation between the percents of two anchors. *)
Definition interpolate (a b : float * Z) (v : float) : float :=
  let t := ((v - fst a) / (fst b - fst a))%f32 in
  (F32.of_int (snd a) + t * F32.of_int (snd b - snd a))%f32.

Definition clamp_percent (x : float) : float :=
  if (x <? F32.of_int 0)%f32 then F32.of_int 0
  else if (x >? F32.of_int 100)%f32 then F32.of_int 100
  else x.

(** Rounding of a non-negative float to the nearest integer, halves
    upward: the integer part of [x + 1/2]. *)
Definition round_nearest (x : float) : Z := F32.to_int (x + F32.half)%f32.

(** ** The battery curve in exact arithmetic

    The same curve over the rationals, with no rounding in between: the
    number a binary32 value stands for, the straight line through two
    anchors, and the nearest integer (halves upward). *)
Definition value (x : float) : Q :=
  match x with
  | S754_finite s m e =>
      ((if s then -1 else 1) * inject_Z (Z.pos m) * 2 ^ e)%Q
  | _ => 0%Q
  end.

Definition exact_interpolation (a b : Q * Z) (v : Q) : Q :=
  (inject_Z (snd a)
   + (v - fst a) / (fst b - fst a) * inject_Z (snd b - snd a))%Q.

Definition nearest_integer (x : Q) : Z := Qfloor (x + (1 # 2)).

(** The anchors of the specification, in decimal, and the anchors as the
    sketch has them, at the values of its [float] literals. *)
Definition decimal_anchors : list (Q * Z) :=
  [ (3.20%Q, 0); (3.30%Q, 2); (3.60%Q, 25); (3.75%Q, 50);
    (3.85%Q, 70); (3.95%Q, 90); (4.05%Q, 97); (4.15%Q, 100) ].

Definition literal_anchors : list (Q * Z) :=
  map (fun a => (value (fst a), snd a)) anchor_table.

(** The piecewise-linear curve through a list of anchors, inside the
    table. *)
Fixpoint exact_curve (anchors : list (Q * Z)) (v : Q) : option Q :=
  match anchors with
  | a :: ((b :: _) as rest) =>
      if Qle_bool (fst a) v && Qle_bool v (fst b)
      then Some (exact_interpolation a b v)
      else exact_curve rest v
  | _ => None
  end.

(** The voltages 3.21, 3.22, ..., 4.14, as the [float] literals nearest
    to them. *)
Definition centivolts : list Z := map (fun n => 321 + Z.of_nat n) (seq 0 94).

Definition agrees_with_exact_curve (c : Z) : bool :=
  match exact_curve literal_anchors (value (F32.decimal c 2)) with
  | Some x => batteryPercentFromVoltage (F32.decimal c 2) =? nearest_integer x
  | None => false
  end.

(** ** The C library: characters and [strtof]

    A [const char*] that points to a string is a [string]: the characters
    before the terminating NUL.  [strtof] belongs to the C library; the
    model follows ISO C (7.20.1.3): white space is skipped, then an
    optional sign, then the longest prefix that is a decimal number, a
    hexadecimal number, an infinity or a NaN; the value is rounded to the
    nearest binary32.  The second component is [end - s], the number of
    characters consumed; it is 0 when no conversion could be made. *)

Definition code (c : ascii) : Z := Z.of_N (N_of_ascii c).

Definition isspace (c : ascii) : bool :=
  (code c =? 32) || ((9 <=? code c) && (code c <=? 13)).

Definition tolower (c : ascii) : ascii :=
  if (65 <=? code c) && (code c <=? 90)
  then ascii_of_N (Z.to_N (code c + 32)) else c.

Definition digit_of (c : ascii) : option Z :=
  if (48 <=? code c) && (code c <=? 57) then Some (code c - 48) else None.

Definition hex_digit_of (c : ascii) : option Z :=
  match digit_of c with
  | Some d => Some d
  | None =>
      let l := code (tolower c) in
      if (97 <=? l) && (l <=? 102) then Some (l - 87) else None
  end.

Fixpoint skip_spaces (s : string) : nat * string :=
  match s with
  | String c rest =>
      if isspace c then let '(n, r) := skip_spaces rest in (S n, r) else (O, s)
  | EmptyString => (O, s)
  end.

(** An optional sign: is it a minus, how many characters, what follows. *)
Definition read_sign (s : string) : bool * nat * string :=
  match s with
  | String "-" rest => (true, 1%nat, rest)
  | String "+" rest => (false, 1%nat, rest)
  | _ => (false, O, s)
  end.

(** The longest run of digits: its value on top of [acc], its length and
    what follows. *)
Fixpoint read_digits (val : ascii -> option Z) (base acc : Z) (s : string)
  : Z * nat * string :=
  match s with
  | String c rest =>
      match val c with
      | Some d =>
          let '(a, n, r) := read_digits val base (acc * base + d) rest in
          (a, S n, r)
      | None => (acc, O, s)
      end
  | EmptyString => (acc, O, s)
  end.

(** Digits with an optional radix point and at least one digit: the
    digits read as one integer, the number of digits after the point, the
    number of characters and what follows. *)
Definition read_number (val : ascii -> option Z) (base : Z) (s : string)
  : option (Z * nat * nat * string) :=
  let '(i, ni, r1) := read_digits val base 0 s in
  match r1 with
  | String "." r1' =>
      let '(m, nf, r2) := read_digits val base i r1' in
      if (ni + nf =? 0)%nat then None else Some (m, nf, (ni + 1 + nf)%nat, r2)
  | _ => if (ni =? 0)%nat then None else Some (i, O, ni, r1)
  end.

(** An optional exponent part introduced by [marker] (in lower case): its
    value and its length, both 0 when no digit follows the marker. *)
Definition read_exponent (marker : ascii) (s : string) : Z * nat :=
  match s with
  | String c rest =>
      if Ascii.eqb (tolower c) marker then
        let '(neg, ns, r) := read_sign rest in
        let '(e, ne, _) := read_digits digit_of 10 0 r in
        if (ne =? 0)%nat then (0, O)
        else (if neg then - e else e, (1 + ns + ne)%nat)
      else (0, O)
  | EmptyString => (0, O)
  end.

(** [skip_word w s]: what follows [w] in [s], compared without case. *)
Fixpoint skip_word (w s : string) : option string :=
  match w, s with
  | EmptyString, _ => Some s
  | String a w', String c s' =>
      if Ascii.eqb a (tolower c) then skip_word w' s' else None
  | String _ _, EmptyString => None
  end.

(** The length of [(n-char-sequence)] after [nan], 0 if there is none. *)
Fixpoint nan_tag_chars (s : string) : option nat :=
  match s with
  | String c rest =>
      if Ascii.eqb c ")" then Some 1%nat
      else if match digit_of c with Some _ => true | None => false end
              || ((97 <=? code (tolower c)) && (code (tolower c) <=? 122))
              || (code c =? 95)
      then option_map S (nan_tag_chars rest)
      else None
  | EmptyString => None
  end.

Definition nan_tag_length (s : string) : nat :=
  match s with
  | String "(" rest =>
      match nan_tag_chars rest with Some n => S n | None => O end
  | _ => O
  end.

(** [m * 10^e] and [m * 2^e], rounded once to the nearest binary32. *)
Definition scale10 (neg : bool) (m e : Z) : float :=
  match m with
  | Z.pos p =>
      if 0 <=? e
      then binary_normalize F32.prec F32.emax (cond_Zopp neg (m * 10 ^ e)) 0 neg
      else F32.div (S754_finite neg p 0)
                   (S754_finite false (Z.to_pos (10 ^ (- e))) 0)
  | _ => S754_zero neg
  end.

Definition scale2 (neg : bool) (m e : Z) : float :=
  match m with
  | Z.pos p => binary_normalize F32.prec F32.emax (cond_Zopp neg m) e neg
  | _ => S754_zero neg
  end.

Definition strtof (s : string) : float * nat :=
  let '(nsp, s1) := skip_spaces s in
  let '(neg, nsg, s2) := read_sign s1 in
  let lead := (nsp + nsg)%nat in
  match skip_word "inf" s2 with
  | Some r =>
      let more := match skip_word "inity" r with Some _ => 5%nat | None => O end in
      (S754_infinity neg, (lead + 3 + more)%nat)
  | None =>
  match skip_word "nan" s2 with
  | Some r => (S754_nan, (lead + 3 + nan_tag_length r)%nat)
  | None =>
  match skip_word "0x" s2 with
  | Some r =>
      match read_number hex_digit_of 16 r with
      | Some (m, nf, used, r') =>
          let '(e, ne) := read_exponent "p" r' in
          (scale2 neg m (e - 4 * Z.of_nat nf), (lead + 2 + used + ne)%nat)
      | None => (S754_zero neg, (lead + 1)%nat)
      end
  | None =>
      match read_number digit_of 10 s2 with
      | Some (m, nf, used, r') =>
          let '(e, ne) := read_exponent "e" r' in
          (scale10 neg m (e - Z.of_nat nf), (lead + used + ne)%nat)
      | None => (F32.zero, O)
      end
  end end end.

(** ** Utilities *)

Definition clampNonNegative (v : float) : float :=
  if (v <? F32.zero)%f32 then F32.zero else v.

(** The argument is [None] for a null pointer. *)
Definition parseFloatSafe (s : option string) : float :=
  match s with
  | None => F32.zero
  | Some EmptyString => F32.zero
  | Some str =>
      let '(v, consumed) := strtof str in
      if (consumed =? 0)%nat then F32.zero (* no parse *)
      else clampNonNegative v
  end.

(** ** Character arrays *)

Definition NUL : ascii := "000"%char.

(** The string a character array holds: the characters before its first
    NUL.  (An array without a NUL would be read past its end; the arrays
    of the sketch always hold one, see [holds_string].) *)
Fixpoint c_str (a : list ascii) : string :=
  match a with
  | [] => EmptyString
  | c :: rest => if Ascii.eqb c NUL then EmptyString else String c (c_str rest)
  end.

(** [char a[size] = text]: the text, then NULs up to [size]. *)
Definition char_array (size : nat) (text : string) : list ascii :=
  take size (list_ascii_of_string text ++ replicate size NUL).

(** [memcpy(dst, src, n)], for [n] within both arrays (C leaves a read
    past the end of [src] undefined; the model copies what [src] has). *)
Definition memcpy (dst src : list ascii) (n : nat) : list ascii :=
  list_inserts 0 (take n src) dst.

(** [strncpy(dst, src, n)]: the string of [src] cut to [n] characters,
    padded with NULs to exactly [n] characters. *)
Definition strncpy (dst src : list ascii) (n : nat) : list ascii :=
  let text := take n (list_ascii_of_string (c_str src)) in
  list_inserts 0 (text ++ replicate (n - length text) NUL) dst.

(** [safeCopy(dst, dstSize, src, srcLen)]; [dst] is never null in the
    sketch, [src] is [None] for a null pointer. *)
Definition safeCopy (dst : list ascii) (dstSize : nat)
    (src : option (list ascii)) (srcLen : nat) : list ascii :=
  if (dstSize =? 0)%nat then dst
  else
    let n := if (srcLen <? dstSize - 1)%nat then srcLen else (dstSize - 1)%nat in
    let dst :=
      match src with
      | Some src => if (0 <? srcLen)%nat then memcpy dst src n else dst
      | None => dst
      end in
    <[n := NUL]> dst.

(** ** RTC data and globals *)

Definition TOPIC_PRICE_USD : string := "home/bitcoin/price/usd".
Definition TOPIC_BALANCE_BTC : string := "home/bitcoin/wallets/total_btc".

(** The [RTC_DATA_ATTR] variables, which survive deep sleep. *)
Record rtc_data : Type := mkRtc {
  lastPriceUsd : list ascii;
  lastBalanceBtc : list ascii;
  lastBatteryVoltage : float;
  lastBatteryPercent : Z
}.

(** Their initializers: the values at first power-on. *)
Definition rtc_power_on : rtc_data :=
  mkRtc (char_array 16 "--") (char_array 16 "--") F32.zero (-1).

(** The incoming MQTT values: two flags and two fixed buffers. *)
Record incoming : Type := mkIncoming {
  gotPrice : bool;
  gotBalance : bool;
  priceUsdBuf : list ascii;
  balanceBtcBuf : list ascii
}.

Definition incoming_boot : incoming :=
  mkIncoming false false (char_array 16 "") (char_array 16 "").

(** ** MQTT callback *)

(** [topic] and [payload] are [None] for null pointers. *)
Definition mqttCallback (topic : option string) (payload : option (list ascii))
    (length : nat) (g : incoming) : incoming :=
  match topic, payload with
  | Some topic, Some payload =>
      if (length =? 0)%nat then g
      else if String.eqb topic TOPIC_PRICE_USD then
        mkIncoming true (gotBalance g)
          (safeCopy (priceUsdBuf g) 16 (Some payload) length)
          (balanceBtcBuf g)
      else if String.eqb topic TOPIC_BALANCE_BTC then
        mkIncoming (gotPrice g) true
          (priceUsdBuf g)
          (safeCopy (balanceBtcBuf g) 16 (Some payload) length)
      else g
  | _, _ => g
  end.

(** ** The wake cycle

    What one wake cycle meets outside the sketch: the raw battery sample,
    whether WiFi and the broker connect within their timeouts, the text
    of the local time when it is known, and what each [mqttClient.loop()]
    of the 4000 ms window hands to the callback (the client library calls
    the callback from [loop()] only, with non-null pointers and the
    length of the payload). *)
Record mqtt_message : Type := mkMsg {
  msg_topic : string;
  msg_payload : list ascii
}.

Record wake_env : Type := mkEnv {
  adc_raw : Z;
  wifi_up : bool;
  local_time : option string;
  broker_up : bool;
  mqtt_rounds : list (list mqtt_message)
}.

(** The steps of [setup()] that the properties below speak about, logged
    in the order in which they are run. *)
Inductive action : Type :=
| ActDisplayBegin
| ActReadBattery
| ActConnectWiFi
| ActSyncTime
| ActResetIncoming
| ActConnectMQTT
| ActMqttLoop
| ActDraw (years months weeks : Z) (btcPriceUsd vbat : float) (pct : Z)
          (timestamp : string)
| ActPersistPrice
| ActPersistBalance
| ActMqttDisconnect
| ActWiFiDisconnect
| ActSleep.

Record machine : Type := mkMachine {
  rtc : rtc_data;
  ram : incoming;
  log : list action
}.

(** Computations over the machine; [None] is a run that does not end. *)
Definition run (A : Type) : Type := machine -> option (A * machine).

Definition ret {A : Type} (a : A) : run A := fun m => Some (a, m).

Definition bind {A B : Type} (c : run A) (k : A -> run B) : run B :=
  fun m => match c m with
           | Some (a, m') => k a m'
           | None => None
           end.

Notation "x <- c ;; k" := (bind c (fun x => k))
  (at level 100, c at next level, right associativity).
Notation "c ;; k" := (bind c (fun _ => k))
  (at level 100, right associativity).

Definition act (a : action) : run unit :=
  fun m => Some (tt, mkMachine (rtc m) (ram m) (log m ++ [a])).

Definition get_ram : run incoming := fun m => Some (ram m, m).
Definition get_rtc : run rtc_data := fun m => Some (rtc m, m).

Definition set_ram (f : incoming -> incoming) : run unit :=
  fun m => Some (tt, mkMachine (rtc m) (f (ram m)) (log m)).

Definition set_rtc (f : rtc_data -> rtc_data) : run unit :=
  fun m => Some (tt, mkMachine (f (rtc m)) (ram m) (log m)).

Definition returned {A : Type} (o : option A) : run A :=
  fun m => match o with Some a => Some (a, m) | None => None end.

(** [gotPrice = false; gotBalance = false; priceUsdBuf[0] = '\0';
    balanceBtcBuf[0] = '\0';] *)
Definition reset_incoming (g : incoming) : incoming :=
  mkIncoming false false
    (<[0%nat := NUL]> (priceUsdBuf g))
    (<[0%nat := NUL]> (balanceBtcBuf g)).

(** The library hands one message to the callback. *)
Definition deliver (g : incoming) (msg : mqtt_message) : incoming :=
  mqttCallback (Some (msg_topic msg)) (Some (msg_payload msg))
               (length (msg_payload msg)) g.

(** [while (millis() - start < 4000) { mqttClient.loop(); delay(10);
    if (gotPrice && gotBalance) break; }] over the rounds that fit into
    the window. *)
Fixpoint service_mqtt (rounds : list (list mqtt_message)) : run unit :=
  match rounds with
  | [] => ret tt
  | msgs :: rest =>
      act ActMqttLoop ;;
      set_ram (fun g => fold_left deliver msgs g) ;;
      g <- get_ram ;;
      if gotPrice g && gotBalance g then ret tt else service_mqtt rest
  end.

(** What [setup()] computes on its way, for the properties to refer to. *)
Record cycle_values : Type := mkValues {
  val_priceUsd : float;
  val_balanceBtc : float;
  val_usdWealth : float;
  val_longevity : LongevityResult
}.

Section Setup.

Variable powf : float -> float -> float.
Variable env : wake_env.

Definition setup : run cycle_values :=
  act ActDisplayBegin ;;
  (* Battery *)
  act ActReadBattery ;;
  let vbat := readBatteryVoltage (adc_raw env) in
  let pct := batteryPercentFromVoltage vbat in
  set_rtc (fun r => mkRtc (lastPriceUsd r) (lastBalanceBtc r) vbat pct) ;;
  (* Network *)
  act ActConnectWiFi ;;
  let wifiOK := wifi_up env in
  timestamp <-
    (if wifiOK then
       act ActSyncTime ;;
       ret (match local_time env with Some t => t | None => "--"%string end)
     else ret "--"%string) ;;
  (* MQTT *)
  act ActResetIncoming ;;
  set_ram reset_incoming ;;
  mqttOK <- (if wifiOK then act ActConnectMQTT ;; ret (broker_up env)
             else ret false) ;;
  (if mqttOK then service_mqtt (mqtt_rounds env) else ret tt) ;;
  (* Fallbacks from RTC if needed *)
  g <- get_ram ;;
  r <- get_rtc ;;
  let priceStr := if gotPrice g then priceUsdBuf g else lastPriceUsd r in
  let balanceStr := if gotBalance g then balanceBtcBuf g else lastBalanceBtc r in
  let priceUsd := parseFloatSafe (Some (c_str priceStr)) in
  let balanceBtc := parseFloatSafe (Some (c_str balanceStr)) in
  (* Sell BTC today -> USD wealth *)
  let usdWealth := (balanceBtc * priceUsd)%f32 in
  (* Longevity with inflation *)
  res <- returned (computeLongevityWithInflation powf usdWealth
                     MONTHLY_EXP_USD INFLATION_ANNUAL) ;;
  act (ActDraw (outYears res) (outMonths res) (outWeeks res)
               priceUsd vbat pct timestamp) ;;
  (* Persist last known values *)
  (if gotPrice g then
     act ActPersistPrice ;;
     set_rtc (fun r => mkRtc (<[15%nat := NUL]> (strncpy (lastPriceUsd r) (priceUsdBuf g) 15))
                             (lastBalanceBtc r)
                             (lastBatteryVoltage r) (lastBatteryPercent r))
   else ret tt) ;;
  (if gotBalance g then
     act ActPersistBalance ;;
     set_rtc (fun r => mkRtc (lastPriceUsd r)
                             (<[15%nat := NUL]> (strncpy (lastBalanceBtc r) (balanceBtcBuf g) 15))
                             (lastBatteryVoltage r) (lastBatteryPercent r))
   else ret tt) ;;
  (* Clean shutdown *)
  (if mqttOK then act ActMqttDisconnect else ret tt) ;;
  act ActWiFiDisconnect ;;
  act ActSleep ;;
  ret (mkValues priceUsd balanceBtc usdWealth res).

End Setup.

(** ** [setup()] in parts

    A wake from deep sleep restarts the sketch: the [RTC_DATA_ATTR]
    variables keep their values ("survives deep sleep"), every other
    variable starts from its initialiser, here [gotPrice = false],
    [gotBalance = false] and the two buffers [""].  [setup()] is run once
    per wake. *)
Definition wake_up (r : rtc_data) (l : list action) : machine :=
  mkMachine r incoming_boot l.

(** [setup()] cut where its network operations begin; [setup_in_parts]
    proves that [setup] is the sequence of the parts. *)
Section SetupParts.

Variable powf : float -> float -> float.
Variable env : wake_env.

(** Up to [connectWiFi()]: the display and the battery. *)
Definition setup_battery : run (float * Z) :=
  act ActDisplayBegin ;;
  act ActReadBattery ;;
  let vbat := readBatteryVoltage (adc_raw env) in
  let pct := batteryPercentFromVoltage vbat in
  set_rtc (fun r => mkRtc (lastPriceUsd r) (lastBalanceBtc r) vbat pct) ;;
  ret (vbat, pct).

(** [bool wifiOK = connectWiFi();] *)
Definition setup_wifi : run bool :=
  act ActConnectWiFi ;;
  ret (wifi_up env).

(** [if (wifiOK) { configTime(...); ...; timestamp = makeTimestampOrFallback(); }] *)
Definition setup_time (wifiOK : bool) : run string :=
  if wifiOK then
    act ActSyncTime ;;
    ret (match local_time env with Some t => t | None => "--"%string end)
  else ret "--"%string.

(** [gotPrice = false; ... balanceBtcBuf[0] = 0;] *)
Definition setup_reset : run unit :=
  act ActResetIncoming ;;
  set_ram reset_incoming.

(** From [connectMQTT()] to the deep sleep. *)
Definition setup_mqtt (vbat : float) (pct : Z) (wifiOK : bool)
    (timestamp : string) : run cycle_values :=
  mqttOK <- (if wifiOK then act ActConnectMQTT ;; ret (broker_up env)
             else ret false) ;;
  (if mqttOK then service_mqtt (mqtt_rounds env) else ret tt) ;;
  g <- get_ram ;;
  r <- get_rtc ;;
  let priceStr := if gotPrice g then priceUsdBuf g else lastPriceUsd r in
  let balanceStr := if gotBalance g then balanceBtcBuf g else lastBalanceBtc r in
  let priceUsd := parseFloatSafe (Some (c_str priceStr)) in
  let balanceBtc := parseFloatSafe (Some (c_str balanceStr)) in
  let usdWealth := (balanceBtc * priceUsd)%f32 in
  res <- returned (computeLongevityWithInflation powf usdWealth
                     MONTHLY_EXP_USD INFLATION_ANNUAL) ;;
  act (ActDraw (outYears res) (outMonths res) (outWeeks res)
               priceUsd vbat pct timestamp) ;;
  (if gotPrice g then
     act ActPersistPrice ;;
     set_rtc (fun r => mkRtc (<[15%nat := NUL]> (strncpy (lastPriceUsd r) (priceUsdBuf g) 15))
                             (lastBalanceBtc r)
                             (lastBatteryVoltage r) (lastBatteryPercent r))
   else ret tt) ;;
  (if gotBalance g then
     act ActPersistBalance ;;
     set_rtc (fun r => mkRtc (lastPriceUsd r)
                             (<[15%nat := NUL]> (strncpy (lastBalanceBtc r) (balanceBtcBuf g) 15))
                             (lastBatteryVoltage r) (lastBatteryPercent r))
   else ret tt) ;;
  (if mqttOK then act ActMqttDisconnect else ret tt) ;;
  act ActWiFiDisconnect ;;
  act ActSleep ;;
  ret (mkValues priceUsd balanceBtc usdWealth res).

Definition setup_parts : run cycle_values :=
  battery <- setup_battery ;;
  wifiOK <- setup_wifi ;;
  timestamp <- setup_time wifiOK ;;
  setup_reset ;;
  setup_mqtt (fst battery) (snd battery) wifiOK timestamp.

End SetupParts.

(** ** What a wake cycle receives

    The vocabulary of the properties of the cycle: which messages the
    callback stores, which messages reach it before the wait window is
    left, and the text that is kept of a payload. *)

(** The callback stores a message of [topic] when its payload is not empty. *)
Definition accepts (topic : string) (msg : mqtt_message) : bool :=
  String.eqb (msg_topic msg) topic
  && negb (length (msg_payload msg) =? 0)%nat.

(** The messages handed to the callback, from flags [price] and
    [balance], until both are set after a round or the rounds are over. *)
Fixpoint serviced (rounds : list (list mqtt_message)) (price balance : bool)
  : list mqtt_message :=
  match rounds with
  | [] => []
  | msgs :: rest =>
      let price' := price || existsb (accepts TOPIC_PRICE_USD) msgs in
      let balance' := balance || existsb (accepts TOPIC_BALANCE_BTC) msgs in
      msgs ++ (if price' && balance' then [] else serviced rest price' balance')
  end.

(** The number of calls of [mqttClient.loop()] in the window. *)
Fixpoint rounds_run (rounds : list (list mqtt_message)) (price balance : bool)
  : nat :=
  match rounds with
  | [] => O
  | msgs :: rest =>
      let price' := price || existsb (accepts TOPIC_PRICE_USD) msgs in
      let balance' := balance || existsb (accepts TOPIC_BALANCE_BTC) msgs in
      S (if price' && balance' then O else rounds_run rest price' balance')
  end.

Definition handed_over (env : wake_env) : list mqtt_message :=
  if wifi_up env && broker_up env
  then serviced (mqtt_rounds env) false false else [].

(** The topic delivers a value in this cycle. *)
Definition delivers (topic : string) (env : wake_env) : bool :=
  existsb (accepts topic) (handed_over env).

(** The payload of the last message of [topic] that was stored. *)
Definition last_payload (topic : string) (msgs : list mqtt_message)
  : option (list ascii) :=
  fold_left (fun acc msg => if accepts topic msg then Some (msg_payload msg)
                            else acc) msgs None.

(** The text kept of a payload: its first 15 bytes, as a C string. *)
Definition stored_text (payload : list ascii) : string :=
  c_str (take 15 payload).

(** A [char[16]] that holds a string. *)
Definition holds_string (a : list ascii) : Prop :=
  length a = 16%nat /\ exists n, (n <= 15)%nat /\ a !! n = Some NUL.

(** The four arrays of a machine are [char[16]]. *)
Definition arrays_16 (m : machine) : Prop :=
  length (lastPriceUsd (rtc m)) = 16%nat /\
  length (lastBalanceBtc (rtc m)) = 16%nat /\
  length (priceUsdBuf (ram m)) = 16%nat /\
  length (balanceBtcBuf (ram m)) = 16%nat.

(** The state of the incoming values in which nothing is received yet. *)
Definition not_yet_received (g : incoming) : Prop :=
  gotPrice g = false /\ gotBalance g = false /\
  c_str (priceUsdBuf g) = EmptyString /\
  c_str (balanceBtcBuf g) = EmptyString.

(** The steps that use the network, and those that use the broker. *)
Definition is_network (a : action) : bool :=
  match a with
  | ActConnectWiFi | ActSyncTime | ActConnectMQTT | ActMqttLoop
  | ActMqttDisconnect | ActWiFiDisconnect => true
  | _ => false
  end.

Definition is_mqtt (a : action) : bool :=
  match a with
  | ActConnectMQTT | ActMqttLoop | ActMqttDisconnect => true
  | _ => false
  end.

(** In a sequence of steps, every step of the kind [P] comes after the
    reset of the incoming values. *)
Definition reset_precedes (P : action -> bool) (acts : list action) : Prop :=
  forall pre a post,
    acts = pre ++ a :: post -> P a = true -> In ActResetIncoming pre.

(** The machine at first power-on. *)
Definition machine_power_on : machine :=
  mkMachine rtc_power_on incoming_boot [].

(** ** The wake cycle in closed form

    The outcome of [setup], written without the monad; [setup_run] below
    proves that [setup] computes exactly this. *)

Definition final_incoming (env : wake_env) (g : incoming) : incoming :=
  fold_left deliver (handed_over env) (reset_incoming g).

Definition loops_run (env : wake_env) : nat :=
  if wifi_up env && broker_up env
  then rounds_run (mqtt_rounds env) false false else O.

Definition persisted (got : bool) (last buf : list ascii) : list ascii :=
  if got then <[15%nat := NUL]> (strncpy last buf 15) else last.

Definition cycle_timestamp (env : wake_env) : string :=
  if wifi_up env
  then match local_time env with Some t => t | None => "--"%string end
  else "--"%string.

Definition cycle_actions (env : wake_env) (g1 : incoming) (draw : action)
  : list action :=
  [ActDisplayBegin; ActReadBattery; ActConnectWiFi]
  ++ (if wifi_up env then [ActSyncTime] else [])
  ++ [ActResetIncoming]
  ++ (if wifi_up env then [ActConnectMQTT] else [])
  ++ replicate (loops_run env) ActMqttLoop
  ++ [draw]
  ++ (if gotPrice g1 then [ActPersistPrice] else [])
  ++ (if gotBalance g1 then [ActPersistBalance] else [])
  ++ (if wifi_up env && broker_up env then [ActMqttDisconnect] else [])
  ++ [ActWiFiDisconnect; ActSleep].

(** ** Concrete inputs *)

(** The extreme input of the specification: wealth 1e12, expense 0.01. *)
Definition wealth_1e12 : float := Eval vm_compute in F32.of_int (10 ^ 12).
Definition expense_1cent : float := Eval vm_compute in F32.decimal 1 2.

(** A cycle without network, with a battery sample of 1000 (3.95 V). *)
Definition env_offline : wake_env := mkEnv 1000 false None false [].

(** A cycle in which only the balance topic delivers, the text [0.5]. *)
Definition env_balance_only : wake_env :=
  mkEnv 1000 true (Some "2026-01-01 10:00"%string) true
    [ [mkMsg TOPIC_BALANCE_BTC (list_ascii_of_string "0.5")]; [] ].

(** ** Further notions

    Vocabulary of the properties that go beyond the longevity simulation,
    the battery curve and the retained texts. *)

Definition is_zero (x : float) : bool :=
  match x with S754_zero _ => true | _ => false end.

Definition is_finite (x : float) : bool :=
  match x with S754_zero _ | S754_finite _ _ _ => true | _ => false end.

(** The values a 12-bit [analogRead] returns, the range [ADC_MAX] names. *)
Definition adc_samples : list Z := map Z.of_nat (seq 0 4096).

(** The two battery helpers composed as [setup] composes them. *)
Definition sample_percent (raw : Z) : Z :=
  batteryPercentFromVoltage (readBatteryVoltage raw).

(** The checks of [sample_percent] over all samples, as one boolean. *)
Definition sample_percent_in_range (raw : Z) : bool :=
  let p := sample_percent raw in
  (0 <=? p) && (p <=? 100)
  && Bool.eqb (p =? 0) (raw <=? 816)
  && Bool.eqb (p =? 100) (1047 <=? raw).

Definition sample_percent_rises (raw : Z) : bool :=
  sample_percent raw <=? sample_percent (raw + 1).

Definition is_draw (a : action) : bool :=
  match a with ActDraw _ _ _ _ _ _ _ => true | _ => false end.

(** The steps that write a retained text, [lastPriceUsd] or
    [lastBalanceBtc]. *)
Definition is_persist_text (a : action) : bool :=
  match a with ActPersistPrice | ActPersistBalance => true | _ => false end.

(** ** Display

    The calls [drawFreedomClock] makes on the display, in order.  The
    display library is outside the sketch; a frame is the list of calls. *)
Inductive display_op : Type :=
| DClear
| DSetRotation (r : Z)
| DSetTextColorBlack
| DSetTextSize (n : Z)
| DSetCursor (x y : Z)
| DPrintln (s : string)
| DPrint (s : string)
| DPrintInt (n : Z)
| DPrintLong (n : option Z)
| DUpdate.

(** [(long)x], where [long] has 32 bits as on the target: the truncation
    toward zero when it lies in the range of [long].  C leaves the
    conversion undefined for a NaN, for an infinity and for a value whose
    truncation is outside that range; [None] stands for these cases, in
    which the number that appears on the display is not determined by the
    sketch. *)
Definition LONG_MIN : Z := - 2 ^ 31.
Definition LONG_MAX : Z := 2 ^ 31 - 1.

Definition to_long (x : float) : option Z :=
  match x with
  | S754_zero _ => Some 0
  | S754_finite _ _ _ =>
      let z := F32.to_int x in
      if (LONG_MIN <=? z) && (z <=? LONG_MAX) then Some z else None
  | _ => None
  end.

(** [display.print((long)btcPriceUsd)] is [DPrintLong (to_long btcPriceUsd)];
    the parameter [vbat] is not used by the function. *)
Definition drawFreedomClock (years months weeks : Z) (btcPriceUsd vbat : float)
    (pct : Z) (timestamp : string) : list display_op :=
  [ DClear; DSetRotation 1; DSetTextColorBlack;
    (* Title *)
    DSetTextSize 1; DSetCursor 10 8; DPrintln "FREEDOM CLOCK";
    (* Big numbers *)
    DSetTextSize 4; DSetCursor 10 42; DPrintInt years; DPrint "Y";
    DSetCursor 110 42; DPrintInt months; DPrint "M";
    DSetCursor 185 42; DPrintInt weeks; DPrint "W";
    (* Footer: BTC price *)
    DSetTextSize 1; DSetCursor 10 90;
    DPrintLong (to_long btcPriceUsd); DPrint " (BTC price USD)";
    (* Footer: Battery *)
    DSetCursor 10 100 ]
  ++ (if 0 <=? pct then [ DPrintInt pct; DPrint "% (Battery)" ]
      else [ DPrint "-- (Battery)" ])
  ++ [ (* Footer: Last update *)
       DSetCursor 10 110; DPrint timestamp; DPrint " (Last update)";
       DUpdate ].

(** The frame a logged step draws. *)
Definition frame_of (a : action) : list display_op :=
  match a with
  | ActDraw years months weeks btcPriceUsd vbat pct timestamp =>
      drawFreedomClock years months weeks btcPriceUsd vbat pct timestamp
  | _ => []
  end.

(** ** binary32 values as integers

    [scaled m e] is the value [m * 2^e] counted in units of [2^-149], the
    smallest positive binary32 value; it is an integer for every exponent
    from [-149] on. *)
Definition scaled (m : Z) (e : Z) : Z := m * 2 ^ (e + 149).

(** The mantissa has at most 24 bits and the exponent is at least -149. *)
Definition well_formed (x : float) : Prop :=
  match x with
  | S754_finite _ m e => -149 <= e /\ Z.pos (digits2_pos m) <= 24
  | _ => True
  end.

(* ================================================================== *)
(** * Part II: properties *)
(* ================================================================== *)

(** ** The day loop *)

Lemma day_step_days dailyMul s s' :
  day_step dailyMul s = Some s' -> days s' = days s + 1 /\ days s < MAX_DAYS.
Proof.
  unfold day_step. destruct (days s <? MAX_DAYS) eqn:Hc; [|discriminate].
  destruct (remaining s <? dailyExpense s)%f32; [discriminate|].
  intros [= <-]. simpl. apply Z.ltb_lt in Hc. lia.
Qed.

(** From a day count [MAX_DAYS - cap] the loop is left after at most [cap]
    completed passes, whatever the floats do. *)
Lemma day_loop_terminates dailyMul cap :
  forall s, 0 <= days s -> days s + Z.of_nat cap = MAX_DAYS ->
  exists n sf,
    (n <= cap)%nat /\
    after_days n dailyMul s = Some sf /\
    day_step dailyMul sf = None /\
    days sf = days s + Z.of_nat n /\
    forall fuel, (n < fuel)%nat -> day_loop fuel dailyMul s = Some sf.
Proof.
  induction cap as [|cap IH]; intros s H0 Hcap.
  - exists O, s. repeat split; auto.
    + unfold day_step. replace (days s <? MAX_DAYS) with false; [reflexivity|].
      symmetry. apply Z.ltb_ge. lia.
    + lia.
    + intros [|fuel] Hf; [lia|]. simpl.
      unfold day_step. replace (days s <? MAX_DAYS) with false; [reflexivity|].
      symmetry. apply Z.ltb_ge. lia.
  - destruct (day_step dailyMul s) as [s'|] eqn:Hstep.
    + destruct (day_step_days _ _ _ Hstep) as [Hd _].
      destruct (IH s') as (n & sf & Hn & Ha & He & Hds & Hl); [lia|lia|].
      exists (S n), sf. repeat split.
      * lia.
      * simpl. rewrite Hstep. exact Ha.
      * exact He.
      * lia.
      * intros [|fuel] Hf; [lia|]. simpl. rewrite Hstep. apply Hl. lia.
    + exists O, s. repeat split; auto.
      * lia.
      * lia.
      * intros [|fuel] Hf; [lia|]. simpl. rewrite Hstep. reflexivity.
Qed.

Lemma day_loop_from_start dailyMul s :
  days s = 0 ->
  exists n sf,
    (n <= Z.to_nat MAX_DAYS)%nat /\
    after_days n dailyMul s = Some sf /\
    day_step dailyMul sf = None /\
    days sf = Z.of_nat n /\
    day_loop day_fuel dailyMul s = Some sf.
Proof.
  intros Hs.
  destruct (day_loop_terminates dailyMul (Z.to_nat MAX_DAYS) s)
    as (n & sf & Hn & Ha & He & Hd & Hl).
  - lia.
  - rewrite Hs. unfold MAX_DAYS. lia.
  - exists n, sf. repeat split; auto.
    + lia.
    + apply Hl. unfold day_fuel. lia.
Qed.

(** ** The calendar conversion *)

Lemma days_to_longevity_ranges d :
  0 <= d <= MAX_DAYS ->
  0 <= outYears (days_to_longevity d) <= 200 /\
  0 <= outMonths (days_to_longevity d) <= 12 /\
  0 <= outWeeks (days_to_longevity d) <= 4.
Proof.
  unfold MAX_DAYS, days_to_longevity. simpl. intros Hd.
  Z.to_euclidean_division_equations. lia.
Qed.

Lemma days_to_longevity_reference d :
  0 <= d -> days_to_longevity d = reference_calendar d.
Proof.
  intros Hd. unfold days_to_longevity, reference_calendar.
  assert (H1 : Z.rem d 365 = d mod 365) by (apply Z.rem_mod_nonneg; lia).
  assert (H2 : 0 <= d mod 365 < 365) by (apply Z.mod_pos_bound; lia).
  assert (H3 : 0 <= (d mod 365) mod 30 < 30) by (apply Z.mod_pos_bound; lia).
  rewrite H1, (Z.rem_mod_nonneg (d mod 365) 30) by lia.
  rewrite !Z.quot_div_nonneg by lia.
  reflexivity.
Qed.

(** The day counter the loop ends with is the day count of the capped
    reference process. *)
Lemma day_loop_reference dailyMul cap :
  forall s fuel, 0 <= days s -> days s + Z.of_nat cap = MAX_DAYS ->
  (cap < fuel)%nat ->
  exists sf,
    day_loop fuel dailyMul s = Some sf /\
    days sf = days s + Z.of_nat
      (reference_days cap dailyMul (remaining s) (dailyExpense s)).
Proof.
  induction cap as [|cap IH]; intros s fuel H0 Hcap Hfuel;
    (destruct fuel as [|fuel]; [lia|]); simpl.
  - exists s. unfold day_step.
    replace (days s <? MAX_DAYS) with false by (symmetry; apply Z.ltb_ge; lia).
    split; [reflexivity|lia].
  - unfold day_step.
    replace (days s <? MAX_DAYS) with true by (symmetry; apply Z.ltb_lt; lia).
    destruct (remaining s <? dailyExpense s)%f32.
    + exists s. split; [reflexivity|lia].
    + destruct (IH (mkSim (remaining s - dailyExpense s)%f32
                          (dailyExpense s * dailyMul)%f32 (days s + 1)) fuel)
        as (sf & Hl & Hd); simpl; try lia.
      exists sf. split; [exact Hl|]. rewrite Hd. simpl. lia.
Qed.

(** The unbounded process, when it stops within the cap, stops on the day
    the capped one reports. *)
Lemma runs_out_reference_days dailyMul rem exp d :
  runs_out dailyMul rem exp d ->
  forall cap, (d < cap)%nat -> reference_days cap dailyMul rem exp = d.
Proof.
  induction 1 as [rem exp Hlt|rem exp d Hge _ IH]; intros [|cap] Hcap;
    try lia; simpl; rewrite ?Hlt, ?Hge; [reflexivity|].
  f_equal. apply IH. lia.
Qed.

(** A process whose state no longer moves never stops. *)
Lemma runs_out_stuck dailyMul rem exp :
  (rem <? exp)%f32 = false ->
  (rem - exp)%f32 = rem -> (exp * dailyMul)%f32 = exp ->
  forall d, ~ runs_out dailyMul rem exp d.
Proof.
  intros Hge Hrem Hexp d. induction d as [|d IH]; intros H; inversion H; subst.
  - congruence.
  - apply IH. rewrite Hrem, Hexp in *. assumption.
Qed.

(** ** Comparisons with zero *)

Lemma pos_not_le_zero (x : float) :
  (F32.zero <? x)%f32 = true -> (x <=? F32.zero)%f32 = false.
Proof. destruct x as [[]|[]| |[] m e]; cbv; intros H; congruence. Qed.

(** ** Concrete runs *)

Lemma extreme_input_200_years :
  computeLongevityWithInflation powf_base_one wealth_1e12 expense_1cent F32.zero
  = Some (mkLongevity 200 0 0).
Proof. vm_compute. reflexivity. Qed.

(** With every conforming [powf] the same runs result, since only
    [powf(1, 1/365)] is consulted. *)
Lemma dailyMul_without_inflation (powf : float -> float -> float) :
  powf F32.one (F32.one / F32.of_int 365)%f32 = F32.one ->
  dailyMul_of powf F32.zero = F32.one.
Proof.
  intros H. unfold dailyMul_of.
  change (F32.zero <? F32.zero)%f32 with false. cbv iota.
  change (F32.one + F32.zero)%f32 with F32.one. exact H.
Qed.

Lemma longevity_without_inflation (powf : float -> float -> float) (w m : float) :
  powf F32.one (F32.one / F32.of_int 365)%f32 = F32.one ->
  computeLongevityWithInflation powf w m F32.zero
  = computeLongevityWithInflation powf_base_one w m F32.zero.
Proof.
  intros H. unfold computeLongevityWithInflation.
  rewrite (dailyMul_without_inflation powf H).
  rewrite (dailyMul_without_inflation powf_base_one) by reflexivity.
  reflexivity.
Qed.

Lemma one_month_budget_lasts_four_weeks :
  computeLongevityWithInflation powf_base_one
    (F32.of_int 10000) (F32.of_int 10000) F32.zero
  = Some (mkLongevity 0 0 4).
Proof. vm_compute. reflexivity. Qed.

(** ** The claims about [computeLongevityWithInflation] *)

(** C1 (as amended).  For every wealth [w > 0] and monthly expense [m > 0]
    and every inflation rate, [computeLongevityWithInflation] returns the
    result of the reference algorithm of the specification run under its
    cap: negative inflation clamped to 0, [dailyMul = (1+r)^(1/365)], a
    first daily expense [m/30], then day after day, for at most 365*200
    days, stop when the remaining wealth is below the daily expense and
    otherwise subtract the expense and multiply it by [dailyMul]; the day
    count is split by integer division into years, months and weeks. *)
Theorem longevity_refines_capped_reference
    (powf : float -> float -> float) (w m r : float) :
  (F32.zero <? w)%f32 = true ->
  (F32.zero <? m)%f32 = true ->
  computeLongevityWithInflation powf w m r
  = Some (reference_simulate powf w m r).
Proof.
  intros Hw Hm. unfold computeLongevityWithInflation.
  rewrite (pos_not_le_zero _ Hw), (pos_not_le_zero _ Hm). simpl orb. cbv iota.
  destruct (day_loop_reference (dailyMul_of powf r) (Z.to_nat MAX_DAYS)
              (sim_start w m) day_fuel) as (sf & Hl & Hd).
  - cbn [sim_start days]. lia.
  - cbn [sim_start days]. unfold MAX_DAYS. lia.
  - unfold day_fuel. lia.
  - cbv zeta. rewrite Hl. f_equal.
    unfold reference_simulate. rewrite <- days_to_longevity_reference by lia.
    f_equal. rewrite Hd. reflexivity.
Qed.

Lemma longevity_refines_capped_reference_witness :
  (F32.zero <? F32.of_int 10000)%f32 = true /\
  computeLongevityWithInflation powf_base_one
    (F32.of_int 10000) (F32.of_int 10000) F32.zero
  = Some (reference_simulate powf_base_one
            (F32.of_int 10000) (F32.of_int 10000) F32.zero).
Proof.
  split; [reflexivity|].
  apply (longevity_refines_capped_reference powf_base_one
           (F32.of_int 10000) (F32.of_int 10000) F32.zero); reflexivity.
Defined.

(** C1 (as stated) fails: with wealth 1e12, monthly expense 0.01 and no
    inflation both are positive, the sketch returns 200 years, and the
    day-by-day process without a cap never stops, so it has no result. *)
Lemma longevity_unbounded_reference_diverges :
  (F32.zero <? wealth_1e12)%f32 = true /\
  (F32.zero <? expense_1cent)%f32 = true /\
  computeLongevityWithInflation powf_base_one wealth_1e12 expense_1cent F32.zero
  = Some (mkLongevity 200 0 0) /\
  forall res,
    ~ reference_unbounded powf_base_one wealth_1e12 expense_1cent F32.zero res.
Proof.
  split; [reflexivity|]. split; [reflexivity|].
  split; [exact extreme_input_200_years|].
  intros res (d & Hrun & _). revert Hrun.
  apply runs_out_stuck; vm_compute; reflexivity.
Qed.

Lemma longevity_returns_in_ranges
    (powf : float -> float -> float) (w m r : float) :
  exists res,
    computeLongevityWithInflation powf w m r = Some res /\ code_ranges res.
Proof.
  unfold computeLongevityWithInflation.
  destruct ((w <=? F32.zero)%f32 || (m <=? F32.zero)%f32).
  - exists no_longevity. split; [reflexivity|]. unfold code_ranges. simpl. lia.
  - cbv zeta.
    destruct (day_loop_from_start (dailyMul_of powf r) (sim_start w m))
      as (n & sf & Hn & _ & _ & Hd & Hl); [reflexivity|].
    rewrite Hl. eexists. split; [reflexivity|].
    destruct (days_to_longevity_ranges (days sf)) as (Hy & Hmo & Hwk).
    + rewrite Hd. unfold MAX_DAYS in *. lia.
    + unfold code_ranges. lia.
Qed.

(** C2 (as amended).  For every input the function returns, and the
    triple satisfies years >= 0, months in [0,12] and weeks in [0,4]. *)
Theorem longevity_result_ranges
    (powf : float -> float -> float) (w m r : float) :
  exists res,
    computeLongevityWithInflation powf w m r = Some res /\ code_ranges res.
Proof. exact (longevity_returns_in_ranges powf w m r). Qed.

(** C2 (as stated) fails: wealth 360 at a monthly expense of 30 without
    inflation lasts 360 days, which the conversion reports as 0 years and
    12 months. *)
Lemma longevity_twelve_months :
  computeLongevityWithInflation powf_base_one
    (F32.of_int 360) (F32.of_int 30) F32.zero = Some (mkLongevity 0 12 0) /\
  ~ spec_ranges (mkLongevity 0 12 0).
Proof.
  split; [vm_compute; reflexivity|].
  unfold spec_ranges. simpl. lia.
Qed.

(** C3.  For every input the function terminates: the day loop is left
    after at most 365*200 completed passes, the function returns a
    result, and its years field lies between 0 and 200. *)
Theorem longevity_terminates_within_cap
    (powf : float -> float -> float) (w m r : float) :
  (exists n sf,
     Z.of_nat n <= 365 * 200 /\
     after_days n (dailyMul_of powf r) (sim_start w m) = Some sf /\
     day_step (dailyMul_of powf r) sf = None /\
     forall fuel, (n < fuel)%nat ->
       day_loop fuel (dailyMul_of powf r) (sim_start w m) = Some sf) /\
  (exists res,
     computeLongevityWithInflation powf w m r = Some res /\
     0 <= outYears res <= 200).
Proof.
  destruct (day_loop_terminates (dailyMul_of powf r) (Z.to_nat MAX_DAYS)
              (sim_start w m)) as (n & sf & Hn & Ha & He & Hd & Hl).
  { cbn [sim_start days]. lia. }
  { cbn [sim_start days]. unfold MAX_DAYS. lia. }
  split.
  - exists n, sf. repeat split; auto. unfold MAX_DAYS in Hn. lia.
  - unfold computeLongevityWithInflation.
    destruct ((w <=? F32.zero)%f32 || (m <=? F32.zero)%f32).
    + exists no_longevity. split; [reflexivity|]. simpl. lia.
    + cbv zeta. rewrite (Hl day_fuel) by (unfold day_fuel; lia).
      eexists. split; [reflexivity|].
      apply days_to_longevity_ranges. rewrite Hd. cbn [sim_start days].
      unfold MAX_DAYS in *. lia.
Qed.

Lemma longevity_without_funds
    (powf : float -> float -> float) (w m r : float) :
  (w <=? F32.zero)%f32 = true \/ (m <=? F32.zero)%f32 = true ->
  computeLongevityWithInflation powf w m r = Some (mkLongevity 0 0 0).
Proof.
  intros H. unfold computeLongevityWithInflation.
  replace ((w <=? F32.zero)%f32 || (m <=? F32.zero)%f32) with true;
    [reflexivity|].
  symmetry. apply orb_true_iff. exact H.
Qed.

(** C4.  When the wealth is [<= 0] or the monthly expense is [<= 0], the
    function returns exactly (0, 0, 0), whatever the inflation rate. *)
Theorem longevity_zero_without_funds
    (powf : float -> float -> float) (w m r : float) :
  (w <=? F32.zero)%f32 = true \/ (m <=? F32.zero)%f32 = true ->
  computeLongevityWithInflation powf w m r = Some (mkLongevity 0 0 0).
Proof. exact (longevity_without_funds powf w m r). Qed.

Lemma longevity_zero_without_funds_witness :
  ((F32.zero <=? F32.zero)%f32 = true \/
   (MONTHLY_EXP_USD <=? F32.zero)%f32 = true) /\
  computeLongevityWithInflation powf_base_one
    F32.zero MONTHLY_EXP_USD INFLATION_ANNUAL = Some (mkLongevity 0 0 0).
Proof.
  split; [left; reflexivity|].
  apply (longevity_zero_without_funds powf_base_one
           F32.zero MONTHLY_EXP_USD INFLATION_ANNUAL).
  left; reflexivity.
Defined.

(** ** The order of binary32 values *)

Ltac split_compares :=
  repeat match goal with
  | H : context [Z.compare ?a ?b] |- _ => destruct (Z.compare_spec a b)
  | |- context [Z.compare ?a ?b] => destruct (Z.compare_spec a b)
  | H : context [Pos.compare_cont Eq ?a ?b] |- _ =>
      change (Pos.compare_cont Eq a b) with (Pos.compare a b) in *;
      destruct (Pos.compare_spec a b)
  | |- context [Pos.compare_cont Eq ?a ?b] =>
      change (Pos.compare_cont Eq a b) with (Pos.compare a b) in *;
      destruct (Pos.compare_spec a b)
  end.

Lemma SFcompare_antisym x y :
  SFcompare y x = option_map CompOpp (SFcompare x y).
Proof.
  destruct x as [[]|[]| |[] mx ex], y as [[]|[]| |[] my ey]; try reflexivity;
    simpl; split_compares; simpl; try reflexivity; subst; lia.
Qed.

Lemma SFcompare_trans x y z c1 c2 :
  SFcompare x y = Some c1 -> SFcompare y z = Some c2 ->
  c1 <> Gt -> c2 <> Gt ->
  SFcompare x z = Some (match c1 with Eq => c2 | _ => Lt end).
Proof.
  destruct x as [[]|[]| |[] mx ex], y as [[]|[]| |[] my ey],
           z as [[]|[]| |[] mz ez]; simpl; intros H1 H2 N1 N2;
    try discriminate;
    try (injection H1 as <-; injection H2 as <-;
         try reflexivity; try congruence;
         split_compares; simpl in *; subst;
         try reflexivity; try congruence; try lia).
Qed.

Lemma ltb_leb_trans (x y z : float) :
  (x <? y)%f32 = true -> (y <=? z)%f32 = true -> (x <? z)%f32 = true.
Proof.
  unfold F32.ltb, F32.leb, SFltb, SFleb.
  destruct (SFcompare x y) as [[]|] eqn:H1; try discriminate.
  destruct (SFcompare y z) as [[]|] eqn:H2; try discriminate; intros _ _;
    rewrite (SFcompare_trans _ _ _ _ _ H1 H2); congruence.
Qed.

Lemma leb_ltb_trans (x y z : float) :
  (x <=? y)%f32 = true -> (y <? z)%f32 = true -> (x <? z)%f32 = true.
Proof.
  unfold F32.ltb, F32.leb, SFltb, SFleb.
  destruct (SFcompare x y) as [[]|] eqn:H1; try discriminate;
    (destruct (SFcompare y z) as [[]|] eqn:H2; try discriminate); intros _ _;
    rewrite (SFcompare_trans _ _ _ _ _ H1 H2); congruence.
Qed.

Lemma leb_trans (x y z : float) :
  (x <=? y)%f32 = true -> (y <=? z)%f32 = true -> (x <=? z)%f32 = true.
Proof.
  unfold F32.leb, SFleb.
  destruct (SFcompare x y) as [[]|] eqn:H1; try discriminate;
    (destruct (SFcompare y z) as [[]|] eqn:H2; try discriminate); intros _ _;
    rewrite (SFcompare_trans _ _ _ _ _ H1 H2); congruence.
Qed.

Lemma ltb_leb (x y : float) : (x <? y)%f32 = true -> (x <=? y)%f32 = true.
Proof.
  unfold F32.ltb, F32.leb, SFltb, SFleb.
  destruct (SFcompare x y) as [[]|]; congruence.
Qed.

Lemma ltb_not_geb (x y : float) : (x <? y)%f32 = true -> (y <=? x)%f32 = false.
Proof.
  unfold F32.ltb, F32.leb, SFltb, SFleb. rewrite (SFcompare_antisym x y).
  destruct (SFcompare x y) as [[]|]; simpl; congruence.
Qed.

(** A value above [a] is not [<=] anything that [a] is not below. *)
Lemma above_not_leb (a v c : float) :
  (a <? v)%f32 = true -> (a <? c)%f32 = false -> (v <=? c)%f32 = false.
Proof.
  intros Hav Hac. destruct (v <=? c)%f32 eqn:Hvc; [|reflexivity].
  rewrite (ltb_leb_trans _ _ _ Hav Hvc) in Hac. discriminate.
Qed.

(** A value below [b] is not [>=] anything that is not below [b]. *)
Lemma below_not_geb (b v c : float) :
  (v <? b)%f32 = true -> (c <? b)%f32 = false -> (v >=? c)%f32 = false.
Proof.
  intros Hvb Hcb. unfold F32.geb. fold (F32.leb c v).
  destruct (c <=? v)%f32 eqn:Hcv; [|reflexivity].
  rewrite (leb_ltb_trans _ _ _ Hcv Hvb) in Hcb. discriminate.
Qed.

(** ** The battery curve *)

Lemma scan_segments_hit v i todo :
  (voltAt i <? v)%f32 = true -> (v <? voltAt (i + 1))%f32 = true ->
  scan_segments v i (S todo) = interpolate_segment v i.
Proof.
  intros Hlo Hhi. simpl. unfold F32.geb. fold (F32.leb (voltAt i) v).
  rewrite (ltb_leb _ _ Hlo), (ltb_leb _ _ Hhi). reflexivity.
Qed.

Lemma scan_segments_skip v i todo :
  (v <=? voltAt (i + 1))%f32 = false ->
  scan_segments v i (S todo) = scan_segments v (S i) todo.
Proof. intros H. simpl. rewrite H, andb_false_r. reflexivity. Qed.

Lemma clamp_percent_steps (soc : float) :
  (let soc1 := if (soc <? F32.of_int 0)%f32 then F32.of_int 0 else soc in
   if (soc1 >? F32.of_int 100)%f32 then F32.of_int 100 else soc1)
  = clamp_percent soc.
Proof.
  unfold clamp_percent. cbv zeta.
  destruct (soc <? F32.of_int 0)%f32; reflexivity.
Qed.

Lemma interpolate_segment_reference v i a b :
  nth_error anchor_table i = Some a ->
  nth_error anchor_table (S i) = Some b ->
  interpolate_segment v i = round_nearest (clamp_percent (interpolate a b v)).
Proof.
  intros Ha Hb. unfold interpolate_segment, round_nearest. cbv zeta.
  rewrite <- clamp_percent_steps. cbv zeta.
  do 7 (destruct i as [|i];
        [injection Ha as <-; injection Hb as <-; reflexivity|]).
  destruct i; discriminate.
Qed.

Lemma battery_between_anchors i a b v :
  nth_error anchor_table i = Some a ->
  nth_error anchor_table (S i) = Some b ->
  (fst a <? v)%f32 = true -> (v <? fst b)%f32 = true ->
  batteryPercentFromVoltage v = interpolate_segment v i.
Proof.
  intros Ha Hb Hlo Hhi. unfold batteryPercentFromVoltage.
  do 7 (destruct i as [|i];
        [injection Ha as <-; injection Hb as <-; cbn [fst] in Hlo, Hhi;
         rewrite (above_not_leb _ _ (voltAt 0) Hlo) by reflexivity;
         rewrite (below_not_geb _ _ (voltAt (NUM_POINTS - 1)) Hhi) by reflexivity;
         change (NUM_POINTS - 1)%nat with 7%nat;
         repeat (rewrite scan_segments_skip
                   by (apply (above_not_leb _ _ _ Hlo); reflexivity));
         apply scan_segments_hit; assumption|]).
  destruct i; discriminate.
Qed.

(** At each anchor voltage the function returns the percent of the anchor. *)
Lemma battery_at_anchors :
  map batteryPercentFromVoltage voltTable = socTable /\
  map fst anchor_table = voltTable /\ map snd anchor_table = socTable.
Proof. repeat split; vm_compute; reflexivity. Qed.

(** The integer part of [x + 1/2] on a few values around the halves. *)
Lemma round_nearest_examples :
  map round_nearest
    [ F32.decimal 4 1; F32.decimal 5 1; F32.decimal 149 2; F32.decimal 15 1;
      F32.decimal 9949 2; F32.decimal 995 1; F32.of_int 100 ]
  = [ 0; 1; 1; 2; 99; 100; 100 ].
Proof. vm_compute. reflexivity. Qed.

(** ** The numeric sanitizer *)

Lemma clampNonNegative_not_negative (v : float) :
  (clampNonNegative v <? F32.zero)%f32 = false.
Proof.
  unfold clampNonNegative.
  destruct (v <? F32.zero)%f32 eqn:H; [reflexivity|exact H].
Qed.

(** No text makes [parseFloatSafe] return a value below zero. *)
Lemma parseFloatSafe_not_negative (s : option string) :
  (parseFloatSafe s <? F32.zero)%f32 = false.
Proof.
  destruct s as [[|c str]|]; try reflexivity.
  unfold parseFloatSafe. destruct (strtof (String c str)) as [v n].
  destruct (n =? 0)%nat; [reflexivity|apply clampNonNegative_not_negative].
Qed.

Lemma not_negative_not_nan (x : float) :
  F32.is_nan x = false -> (x <? F32.zero)%f32 = false ->
  (x >=? F32.zero)%f32 = true.
Proof. destruct x as [[]|[]| |[] m e]; cbv; congruence. Qed.

(** Unless the result is a NaN, it is [>= 0]. *)
Lemma parseFloatSafe_nonnegative_unless_nan (s : option string) :
  F32.is_nan (parseFloatSafe s) = false ->
  (parseFloatSafe s >=? F32.zero)%f32 = true.
Proof.
  intros H. apply not_negative_not_nan; [exact H|].
  apply parseFloatSafe_not_negative.
Qed.

Lemma parseFloatSafe_examples :
  parseFloatSafe None = F32.zero /\
  parseFloatSafe (Some ""%string) = F32.zero /\
  parseFloatSafe (Some "abc"%string) = F32.zero /\
  parseFloatSafe (Some "--"%string) = F32.zero /\
  parseFloatSafe (Some "-5"%string) = F32.zero /\
  parseFloatSafe (Some "42.5"%string) = F32.decimal 425 1 /\
  F32.decimal 425 1 = S754_finite false 11141120 (-18).
Proof. repeat split; vm_compute; reflexivity. Qed.

(** C6.  The text [nan] is a valid subject sequence of [strtof]; the
    parse succeeds with a NaN, [clampNonNegative] lets it pass because
    [NaN < 0] is false, and the value returned is not [>= 0]. *)
Theorem parseFloatSafe_nan_text :
  strtof "nan" = (S754_nan, 3%nat) /\
  parseFloatSafe (Some "nan"%string) = S754_nan /\
  (parseFloatSafe (Some "nan"%string) >=? F32.zero)%f32 = false.
Proof. repeat split; vm_compute; reflexivity. Qed.

(** A NaN wealth is never below the daily expense: the day loop runs to
    its cap whatever [powf] returns. *)
Lemma reference_days_nan cap dailyMul exp :
  reference_days cap dailyMul S754_nan exp = cap.
Proof.
  revert exp. induction cap as [|cap IH]; intros exp; [reflexivity|].
  simpl. f_equal. apply IH.
Qed.

Lemma nan_wealth_200_years (powf : float -> float -> float) (m r : float) :
  (m <=? F32.zero)%f32 = false ->
  computeLongevityWithInflation powf S754_nan m r = Some (mkLongevity 200 0 0).
Proof.
  intros Hm. unfold computeLongevityWithInflation.
  change (S754_nan <=? F32.zero)%f32 with false. rewrite Hm. cbn [orb]. cbv zeta.
  destruct (day_loop_reference (dailyMul_of powf r) (Z.to_nat MAX_DAYS)
              (sim_start S754_nan m) day_fuel) as (sf & Hl & Hd).
  - cbn [sim_start days]. lia.
  - cbn [sim_start days]. unfold MAX_DAYS. lia.
  - unfold day_fuel. lia.
  - rewrite Hl, Hd. cbn [sim_start remaining dailyExpense days].
    rewrite reference_days_nan. reflexivity.
Qed.

(** ** Character arrays *)

Lemma c_str_length_bound (a : list ascii) (n : nat) :
  a !! n = Some NUL -> (String.length (c_str a) <= n)%nat.
Proof.
  revert n. induction a as [|c rest IH]; intros n Hn; [discriminate|].
  simpl. destruct (Ascii.eqb c NUL) eqn:Hc; [simpl; lia|].
  destruct n as [|n].
  - simpl in Hn. injection Hn as ->. discriminate.
  - simpl. apply le_n_S, IH. exact Hn.
Qed.

Lemma c_str_app_NUL (k rest : list ascii) :
  c_str (k ++ NUL :: rest) = c_str k.
Proof.
  induction k as [|c k IH]; simpl; [reflexivity|].
  destruct (Ascii.eqb c NUL); [reflexivity|]. f_equal. exact IH.
Qed.

(** The characters of a C string contain no NUL. *)
Lemma c_str_chars_app_NUL (a rest : list ascii) (n : nat) :
  (String.length (c_str a) <= n)%nat ->
  c_str (take n (list_ascii_of_string (c_str a)) ++ NUL :: rest) = c_str a.
Proof.
  revert n. induction a as [|c a IH]; intros n Hn; simpl; [destruct n; reflexivity|].
  simpl in Hn. destruct (Ascii.eqb c NUL) eqn:Hc; [destruct n; reflexivity|].
  simpl in Hn. destruct n as [|n]; [lia|]. simpl. rewrite Hc.
  f_equal. apply IH. lia.
Qed.

Lemma inserts_prefix (k l : list ascii) :
  (length k <= length l)%nat ->
  list_inserts 0 k l = k ++ drop (length k) l.
Proof.
  intros Hk. rewrite <- (take_drop (length k) l) at 1.
  apply list_inserts_0_r. rewrite length_take. lia.
Qed.

Lemma insert_after_prefix (k l : list ascii) (x : ascii) :
  (length k < length l)%nat ->
  <[length k := x]> (list_inserts 0 k l) = k ++ x :: drop (S (length k)) l.
Proof.
  intros Hk. rewrite inserts_prefix by lia.
  rewrite insert_app_r_alt by lia. rewrite Nat.sub_diag.
  destruct (drop (length k) l) as [|y t] eqn:Hd.
  - apply (f_equal length) in Hd. rewrite length_drop in Hd. simpl in Hd. lia.
  - simpl. f_equal. f_equal.
    replace (S (length k)) with (length k + 1)%nat by lia.
    rewrite <- drop_drop, Hd. reflexivity.
Qed.

(** ** [safeCopy] and the callback *)

Lemma safeCopy_terminated (dst : list ascii) (src : option (list ascii))
    (srcLen : nat) :
  length dst = 16%nat ->
  length (safeCopy dst 16 src srcLen) = 16%nat /\
  safeCopy dst 16 src srcLen !! (Nat.min srcLen 15) = Some NUL.
Proof.
  intros Hd. unfold safeCopy, memcpy. cbn [Nat.eqb Nat.sub].
  replace (if (srcLen <? 15)%nat then srcLen else 15%nat)
    with (Nat.min srcLen 15) by (destruct (Nat.ltb_spec srcLen 15); lia).
  assert (Hlen : forall d : list ascii, length d = 16%nat ->
            length (<[Nat.min srcLen 15 := NUL]> d) = 16%nat /\
            <[Nat.min srcLen 15 := NUL]> d !! (Nat.min srcLen 15) = Some NUL).
  { intros d Hl. split; [rewrite length_insert; exact Hl|].
    apply list_lookup_insert_eq. lia. }
  destruct src as [src|]; [destruct (0 <? srcLen)%nat|]; apply Hlen;
    rewrite ?length_inserts; exact Hd.
Qed.

Lemma safeCopy_text (dst payload : list ascii) (srcLen : nat) :
  length dst = 16%nat -> (0 < srcLen <= length payload)%nat ->
  c_str (safeCopy dst 16 (Some payload) srcLen)
  = c_str (take (Nat.min srcLen 15) payload).
Proof.
  intros Hd Hl. unfold safeCopy, memcpy. cbn [Nat.eqb Nat.sub].
  replace (if (srcLen <? 15)%nat then srcLen else 15%nat)
    with (Nat.min srcLen 15) by (destruct (Nat.ltb_spec srcLen 15); lia).
  replace (0 <? srcLen)%nat with true by (symmetry; apply Nat.ltb_lt; lia).
  set (n := Nat.min srcLen 15).
  assert (Hn : length (take n payload) = n) by (rewrite length_take; lia).
  rewrite <- Hn at 1. rewrite insert_after_prefix by lia.
  apply c_str_app_NUL.
Qed.

Lemma mqttCallback_ignores topic payload len g :
  topic = None \/ payload = None \/ len = 0%nat \/
  (topic <> Some TOPIC_PRICE_USD /\ topic <> Some TOPIC_BALANCE_BTC) ->
  mqttCallback topic payload len g = g.
Proof.
  intros H. unfold mqttCallback.
  destruct topic as [t|]; [|reflexivity].
  destruct payload as [p|]; [|reflexivity].
  destruct (Nat.eqb_spec len 0) as [|Hlen]; [reflexivity|].
  destruct H as [H|[H|[H|[H1 H2]]]]; try discriminate; try contradiction.
  destruct (String.eqb_spec t TOPIC_PRICE_USD) as [->|_]; [congruence|].
  destruct (String.eqb_spec t TOPIC_BALANCE_BTC) as [->|_]; [congruence|].
  reflexivity.
Qed.

Lemma mqttCallback_price payload len g :
  len <> 0%nat ->
  mqttCallback (Some TOPIC_PRICE_USD) (Some payload) len g
  = mkIncoming true (gotBalance g)
      (safeCopy (priceUsdBuf g) 16 (Some payload) len) (balanceBtcBuf g).
Proof.
  intros Hlen. unfold mqttCallback.
  destruct (Nat.eqb_spec len 0); [contradiction|].
  rewrite String.eqb_refl. reflexivity.
Qed.

Lemma mqttCallback_balance payload len g :
  len <> 0%nat ->
  mqttCallback (Some TOPIC_BALANCE_BTC) (Some payload) len g
  = mkIncoming (gotPrice g) true (priceUsdBuf g)
      (safeCopy (balanceBtcBuf g) 16 (Some payload) len).
Proof.
  intros Hlen. unfold mqttCallback.
  destruct (Nat.eqb_spec len 0); [contradiction|].
  change (String.eqb TOPIC_BALANCE_BTC TOPIC_PRICE_USD) with false.
  rewrite String.eqb_refl. reflexivity.
Qed.

Lemma safeCopy_stored (dst payload : list ascii) (len : nat) :
  length dst = 16%nat -> len <> 0%nat ->
  holds_string (safeCopy dst 16 (Some payload) len) /\
  (String.length (c_str (safeCopy dst 16 (Some payload) len)) <= 15)%nat /\
  ((len <= length payload)%nat ->
   c_str (safeCopy dst 16 (Some payload) len)
   = c_str (take (Nat.min len 15) payload)).
Proof.
  intros Hd Hlen.
  destruct (safeCopy_terminated dst (Some payload) len Hd) as [Hl Hn].
  split; [|split].
  - split; [exact Hl|]. exists (Nat.min len 15). split; [lia|exact Hn].
  - pose proof (c_str_length_bound _ _ Hn). lia.
  - intros Hp. apply safeCopy_text; [exact Hd|lia].
Qed.

(** C10.  The callback leaves both buffers and both flags as they are when
    the topic or the payload is null, when the length is zero and when the
    topic is neither the price topic nor the balance topic.  When it
    stores a payload, it sets the flag of the topic and touches nothing
    else than the buffer of the topic, which then holds a NUL-terminated
    string of at most 15 bytes: the first 15 bytes of the payload. *)
Theorem mqttCallback_frame_and_bound :
  (forall topic payload len g,
     topic = None \/ payload = None \/ len = 0%nat \/
     (topic <> Some TOPIC_PRICE_USD /\ topic <> Some TOPIC_BALANCE_BTC) ->
     mqttCallback topic payload len g = g) /\
  (forall payload len g,
     length (priceUsdBuf g) = 16%nat -> len <> 0%nat ->
     let g' := mqttCallback (Some TOPIC_PRICE_USD) (Some payload) len g in
     gotPrice g' = true /\ gotBalance g' = gotBalance g /\
     balanceBtcBuf g' = balanceBtcBuf g /\
     holds_string (priceUsdBuf g') /\
     (String.length (c_str (priceUsdBuf g')) <= 15)%nat /\
     ((len <= length payload)%nat ->
      c_str (priceUsdBuf g') = c_str (take (Nat.min len 15) payload))) /\
  (forall payload len g,
     length (balanceBtcBuf g) = 16%nat -> len <> 0%nat ->
     let g' := mqttCallback (Some TOPIC_BALANCE_BTC) (Some payload) len g in
     gotBalance g' = true /\ gotPrice g' = gotPrice g /\
     priceUsdBuf g' = priceUsdBuf g /\
     holds_string (balanceBtcBuf g') /\
     (String.length (c_str (balanceBtcBuf g')) <= 15)%nat /\
     ((len <= length payload)%nat ->
      c_str (balanceBtcBuf g') = c_str (take (Nat.min len 15) payload))).
Proof.
  split; [exact mqttCallback_ignores|]. split.
  - intros payload len g Hbuf Hlen g'. subst g'.
    rewrite (mqttCallback_price payload len g Hlen). cbn [gotPrice gotBalance priceUsdBuf balanceBtcBuf].
    split; [reflexivity|]. split; [reflexivity|]. split; [reflexivity|].
    apply safeCopy_stored; assumption.
  - intros payload len g Hbuf Hlen g'. subst g'.
    rewrite (mqttCallback_balance payload len g Hlen). cbn [gotPrice gotBalance priceUsdBuf balanceBtcBuf].
    split; [reflexivity|]. split; [reflexivity|]. split; [reflexivity|].
    apply safeCopy_stored; assumption.
Qed.

Lemma mqttCallback_frame_and_bound_witness :
  mqttCallback (Some "home/other"%string) (Some (list_ascii_of_string "1"))
               1 incoming_boot = incoming_boot /\
  c_str (priceUsdBuf
           (mqttCallback (Some TOPIC_PRICE_USD)
              (Some (list_ascii_of_string "100000.123456789012")) 19
              incoming_boot))
  = c_str (take (Nat.min 19 15) (list_ascii_of_string "100000.123456789012")).
Proof.
  destruct mqttCallback_frame_and_bound as (Hframe & Hprice & _).
  split.
  - apply Hframe. right; right; right. split; discriminate.
  - apply (Hprice (list_ascii_of_string "100000.123456789012") 19%nat incoming_boot).
    + reflexivity.
    + discriminate.
    + vm_compute. lia.
Defined.

(** ** Delivery of messages *)

Lemma deliver_price g msg :
  accepts TOPIC_PRICE_USD msg = true ->
  deliver g msg
  = mkIncoming true (gotBalance g)
      (safeCopy (priceUsdBuf g) 16 (Some (msg_payload msg))
                (length (msg_payload msg)))
      (balanceBtcBuf g).
Proof.
  unfold accepts, deliver. intros H. apply andb_true_iff in H as [Ht Hl].
  apply String.eqb_eq in Ht. rewrite Ht. apply mqttCallback_price.
  destruct (Nat.eqb_spec (length (msg_payload msg)) 0); [discriminate|assumption].
Qed.

Lemma deliver_balance g msg :
  accepts TOPIC_BALANCE_BTC msg = true ->
  deliver g msg
  = mkIncoming (gotPrice g) true (priceUsdBuf g)
      (safeCopy (balanceBtcBuf g) 16 (Some (msg_payload msg))
                (length (msg_payload msg))).
Proof.
  unfold accepts, deliver. intros H. apply andb_true_iff in H as [Ht Hl].
  apply String.eqb_eq in Ht. rewrite Ht. apply mqttCallback_balance.
  destruct (Nat.eqb_spec (length (msg_payload msg)) 0); [discriminate|assumption].
Qed.

Lemma deliver_other g msg :
  accepts TOPIC_PRICE_USD msg = false ->
  accepts TOPIC_BALANCE_BTC msg = false ->
  deliver g msg = g.
Proof.
  unfold accepts, deliver. intros Hp Hb. apply mqttCallback_ignores.
  destruct (Nat.eqb_spec (length (msg_payload msg)) 0) as [H0|H0];
    [right; right; left; exact H0|].
  right; right; right.
  rewrite andb_true_r in Hp, Hb.
  apply String.eqb_neq in Hp, Hb. split; congruence.
Qed.

Lemma accepts_exclusive msg :
  accepts TOPIC_PRICE_USD msg = true -> accepts TOPIC_BALANCE_BTC msg = false.
Proof.
  unfold accepts. intros H. apply andb_true_iff in H as [Ht _].
  apply String.eqb_eq in Ht. rewrite Ht. reflexivity.
Qed.

Lemma last_payload_snoc topic msgs msg :
  last_payload topic (msgs ++ [msg])
  = if accepts topic msg then Some (msg_payload msg)
    else last_payload topic msgs.
Proof. unfold last_payload. rewrite fold_left_app. reflexivity. Qed.

Lemma take_min_length (p : list ascii) (n : nat) :
  take (Nat.min (length p) n) p = take n p.
Proof.
  destruct (Nat.le_ge_cases (length p) n).
  - rewrite Nat.min_l by lia. rewrite !take_ge by lia. reflexivity.
  - rewrite Nat.min_r by lia. reflexivity.
Qed.

(** What a run of deliveries leaves in the flags and the buffers. *)
Lemma fold_deliver msgs g :
  length (priceUsdBuf g) = 16%nat -> length (balanceBtcBuf g) = 16%nat ->
  let g' := fold_left deliver msgs g in
  length (priceUsdBuf g') = 16%nat /\ length (balanceBtcBuf g') = 16%nat /\
  gotPrice g' = gotPrice g || existsb (accepts TOPIC_PRICE_USD) msgs /\
  gotBalance g' = gotBalance g || existsb (accepts TOPIC_BALANCE_BTC) msgs /\
  match last_payload TOPIC_PRICE_USD msgs with
  | Some p => c_str (priceUsdBuf g') = stored_text p
  | None => priceUsdBuf g' = priceUsdBuf g
  end /\
  match last_payload TOPIC_BALANCE_BTC msgs with
  | Some p => c_str (balanceBtcBuf g') = stored_text p
  | None => balanceBtcBuf g' = balanceBtcBuf g
  end.
Proof.
  intros Hp Hb. induction msgs as [|msg msgs IH] using rev_ind.
  - simpl. rewrite !orb_false_r. repeat split; assumption.
  - cbv zeta in *. rewrite fold_left_app, !existsb_app, !last_payload_snoc.
    cbn [fold_left existsb]. rewrite !orb_false_r, !orb_assoc.
    set (g1 := fold_left deliver msgs g) in *.
    destruct IH as (Lp & Lb & Fp & Fb & Tp & Tb).
    destruct (accepts TOPIC_PRICE_USD msg) eqn:Ap.
    + rewrite (accepts_exclusive _ Ap), (deliver_price _ _ Ap).
      cbn [gotPrice gotBalance priceUsdBuf balanceBtcBuf].
      destruct (safeCopy_stored (priceUsdBuf g1) (msg_payload msg)
                  (length (msg_payload msg)) Lp) as (Hs & _ & Ht).
      { unfold accepts in Ap. apply andb_true_iff in Ap as [_ Hl].
        destruct (Nat.eqb_spec (length (msg_payload msg)) 0); [discriminate|assumption]. }
      rewrite orb_true_r, orb_false_r.
      repeat split; try assumption; try apply Hs.
      rewrite Ht by lia. unfold stored_text. rewrite take_min_length. reflexivity.
    + destruct (accepts TOPIC_BALANCE_BTC msg) eqn:Ab.
      * rewrite (deliver_balance _ _ Ab).
        cbn [gotPrice gotBalance priceUsdBuf balanceBtcBuf].
        destruct (safeCopy_stored (balanceBtcBuf g1) (msg_payload msg)
                    (length (msg_payload msg)) Lb) as (Hs & _ & Ht).
        { unfold accepts in Ab. apply andb_true_iff in Ab as [_ Hl].
          destruct (Nat.eqb_spec (length (msg_payload msg)) 0); [discriminate|assumption]. }
        rewrite orb_true_r, orb_false_r.
        repeat split; try assumption; try apply Hs.
        rewrite Ht by lia. unfold stored_text. rewrite take_min_length. reflexivity.
      * rewrite (deliver_other _ _ Ap Ab), !orb_false_r.
        repeat split; assumption.
Qed.

Lemma fold_deliver_flags msgs g :
  gotPrice (fold_left deliver msgs g)
  = gotPrice g || existsb (accepts TOPIC_PRICE_USD) msgs /\
  gotBalance (fold_left deliver msgs g)
  = gotBalance g || existsb (accepts TOPIC_BALANCE_BTC) msgs.
Proof.
  revert g. induction msgs as [|msg msgs IH]; intros g.
  - simpl. rewrite !orb_false_r. split; reflexivity.
  - cbn [fold_left existsb]. destruct (IH (deliver g msg)) as [-> ->].
    rewrite !orb_assoc.
    destruct (accepts TOPIC_PRICE_USD msg) eqn:Ap.
    + rewrite (accepts_exclusive _ Ap), (deliver_price _ _ Ap). simpl.
      rewrite orb_true_r, orb_false_r. split; reflexivity.
    + destruct (accepts TOPIC_BALANCE_BTC msg) eqn:Ab.
      * rewrite (deliver_balance _ _ Ab). simpl.
        rewrite orb_true_r, orb_false_r. split; reflexivity.
      * rewrite (deliver_other _ _ Ap Ab), !orb_false_r. split; reflexivity.
Qed.

(** ** The wait window *)

Lemma service_mqtt_run rounds :
  forall m,
    service_mqtt rounds m
    = Some (tt, mkMachine (rtc m)
                  (fold_left deliver
                     (serviced rounds (gotPrice (ram m)) (gotBalance (ram m)))
                     (ram m))
                  (log m ++ replicate
                     (rounds_run rounds (gotPrice (ram m)) (gotBalance (ram m)))
                     ActMqttLoop)).
Proof.
  induction rounds as [|msgs rest IH]; intros [r g l].
  - cbn. rewrite app_nil_r. reflexivity.
  - cbn [service_mqtt serviced rounds_run].
    cbv beta iota zeta delta [bind act set_ram get_ram ret rtc ram log].
    destruct (fold_deliver_flags msgs g) as [Fp Fb].
    rewrite Fp, Fb.
    destruct ((gotPrice g || existsb (accepts TOPIC_PRICE_USD) msgs)
              && (gotBalance g || existsb (accepts TOPIC_BALANCE_BTC) msgs)).
    + rewrite app_nil_r. reflexivity.
    + rewrite IH. cbn [rtc ram log]. rewrite Fp, Fb, fold_left_app.
      rewrite <- app_assoc. reflexivity.
Qed.

(** ** [setup] in closed form *)

Lemma bind_run {A B : Type} (c : run A) (k : A -> run B) m a m' :
  c m = Some (a, m') -> bind c k m = k a m'.
Proof. intros H. unfold bind. rewrite H. reflexivity. Qed.

Lemma returned_run {A : Type} (o : option A) (a : A) m :
  o = Some a -> returned o m = Some (a, m).
Proof. intros ->. reflexivity. Qed.

Lemma longevity_returns (powf : float -> float -> float) (w m r : float) :
  exists res, computeLongevityWithInflation powf w m r = Some res.
Proof.
  destruct (longevity_returns_in_ranges powf w m r) as (res & H & _).
  exists res. exact H.
Qed.

Lemma setup_run (powf : float -> float -> float) (env : wake_env) (m0 : machine) :
  let vbat := readBatteryVoltage (adc_raw env) in
  let pct := batteryPercentFromVoltage vbat in
  let g1 := final_incoming env (ram m0) in
  let priceUsd :=
    parseFloatSafe (Some (c_str (if gotPrice g1 then priceUsdBuf g1
                                 else lastPriceUsd (rtc m0)))) in
  let balanceBtc :=
    parseFloatSafe (Some (c_str (if gotBalance g1 then balanceBtcBuf g1
                                 else lastBalanceBtc (rtc m0)))) in
  let usdWealth := (balanceBtc * priceUsd)%f32 in
  exists res,
    computeLongevityWithInflation powf usdWealth MONTHLY_EXP_USD INFLATION_ANNUAL
    = Some res /\
    setup powf env m0
    = Some (mkValues priceUsd balanceBtc usdWealth res,
            mkMachine
              (mkRtc (persisted (gotPrice g1) (lastPriceUsd (rtc m0)) (priceUsdBuf g1))
                     (persisted (gotBalance g1) (lastBalanceBtc (rtc m0)) (balanceBtcBuf g1))
                     vbat pct)
              g1
              (log m0 ++ cycle_actions env g1
                 (ActDraw (outYears res) (outMonths res) (outWeeks res)
                          priceUsd vbat pct (cycle_timestamp env)))).
Proof.
  intros vbat pct g1 priceUsd balanceBtc usdWealth.
  destruct (longevity_returns powf usdWealth MONTHLY_EXP_USD INFLATION_ANNUAL)
    as (res & Hres).
  exists res. split; [exact Hres|].
  destruct m0 as [r0 g0 l0].
  unfold setup, cycle_actions, cycle_timestamp, loops_run.
  subst g1 priceUsd balanceBtc usdWealth vbat pct.
  unfold final_incoming, handed_over in *.
  cbn [rtc ram log] in *.
  destruct (wifi_up env), (broker_up env); cbn [andb fold_left] in *;
    change (gotPrice (reset_incoming g0)) with false in *;
    change (gotBalance (reset_incoming g0)) with false in *;
    cbn [bind act set_rtc set_ram get_ram get_rtc ret rtc ram log
         lastPriceUsd lastBalanceBtc];
    rewrite ?(bind_run _ _ _ _ _ (service_mqtt_run _ _));
    cbn [bind act set_rtc set_ram get_ram get_rtc ret rtc ram log
         lastPriceUsd lastBalanceBtc];
    change (gotPrice (reset_incoming g0)) with false in *;
    change (gotBalance (reset_incoming g0)) with false in *;
    rewrite (bind_run _ _ _ _ _ (returned_run _ _ _ Hres));
    cbn [bind act set_rtc set_ram get_ram get_rtc ret rtc ram log
         lastPriceUsd lastBalanceBtc lastBatteryVoltage lastBatteryPercent
         persisted].
  all: try match goal with
       | |- context [gotPrice ?g] => destruct (gotPrice g), (gotBalance g)
       end.
  all: cbn [bind act set_rtc set_ram get_ram get_rtc ret rtc ram log
            lastPriceUsd lastBalanceBtc lastBatteryVoltage lastBatteryPercent
            persisted].
  all: repeat rewrite <- app_assoc; cbn [app replicate]; try reflexivity.
Qed.

(** ** Persisting a buffer *)

Lemma c_str_length_le (a : list ascii) :
  (String.length (c_str a) <= length a)%nat.
Proof.
  induction a as [|c a IH]; simpl; [lia|].
  destruct (Ascii.eqb c NUL); simpl; lia.
Qed.

Lemma stored_text_length (p : list ascii) :
  (String.length (stored_text p) <= 15)%nat.
Proof.
  unfold stored_text. pose proof (c_str_length_le (take 15 p)) as H.
  rewrite length_take in H. lia.
Qed.

Lemma c_str_no_NUL (p : list ascii) :
  Forall (fun c => c <> NUL) p -> c_str p = string_of_list_ascii p.
Proof.
  induction 1 as [|c p Hc _ IH]; simpl; [reflexivity|].
  destruct (Ascii.eqb_spec c NUL); [contradiction|]. f_equal. exact IH.
Qed.

(** A payload of at most 15 bytes without a NUL is kept whole. *)
Lemma stored_text_whole (p : list ascii) :
  (length p <= 15)%nat -> Forall (fun c => c <> NUL) p ->
  stored_text p = string_of_list_ascii p.
Proof.
  intros Hl Hp. unfold stored_text. rewrite take_ge by lia.
  apply c_str_no_NUL. exact Hp.
Qed.

Lemma persisted_text (last buf : list ascii) :
  length last = 16%nat -> (String.length (c_str buf) <= 15)%nat ->
  c_str (persisted true last buf) = c_str buf.
Proof.
  intros Hl Hb. unfold persisted, strncpy.
  set (text := take 15 (list_ascii_of_string (c_str buf))).
  assert (Ht : (length text <= 15)%nat) by (unfold text; rewrite length_take; lia).
  set (k := text ++ replicate (15 - length text) NUL).
  assert (Hk : length k = 15%nat).
  { unfold k. rewrite length_app, length_replicate. lia. }
  rewrite <- Hk at 1. rewrite insert_after_prefix by lia.
  unfold k. rewrite <- app_assoc.
  destruct (15 - length text)%nat; simpl replicate; cbn [app];
    apply c_str_chars_app_NUL; exact Hb.
Qed.

Lemma c_str_reset (buf : list ascii) : c_str (<[0%nat := NUL]> buf) = EmptyString.
Proof. destruct buf; reflexivity. Qed.

Lemma reset_not_yet_received (g : incoming) :
  not_yet_received (reset_incoming g).
Proof.
  unfold not_yet_received, reset_incoming. simpl.
  rewrite !c_str_reset. repeat split; reflexivity.
Qed.

Lemma last_payload_exists topic msgs :
  existsb (accepts topic) msgs = true <->
  exists p, last_payload topic msgs = Some p.
Proof.
  induction msgs as [|msg msgs IH] using rev_ind.
  - simpl. split; [discriminate|intros [p H]; discriminate].
  - rewrite existsb_app, last_payload_snoc. simpl. rewrite orb_false_r.
    destruct (accepts topic msg).
    + rewrite orb_true_r. split; [eauto|reflexivity].
    + rewrite orb_false_r. exact IH.
Qed.

Lemma In_replicate_eq {A : Type} (x y : A) (n : nat) :
  In x (replicate n y) -> x = y.
Proof. induction n as [|n IH]; simpl; [contradiction|]. intros [H|H]; auto. Qed.

(** The flags at the end of a cycle say which topics delivered. *)
Lemma final_flags (env : wake_env) (g : incoming) :
  gotPrice (final_incoming env g) = delivers TOPIC_PRICE_USD env /\
  gotBalance (final_incoming env g) = delivers TOPIC_BALANCE_BTC env.
Proof.
  unfold final_incoming, delivers.
  destruct (fold_deliver_flags (handed_over env) (reset_incoming g)) as [-> ->].
  split; reflexivity.
Qed.

Ltac split_membership :=
  repeat match goal with
  | H : _ \/ _ |- _ => destruct H
  | H : In _ (replicate _ _) |- _ => apply In_replicate_eq in H
  | H : In _ (_ ++ _) |- _ => apply in_app_iff in H
  | H : In _ (_ :: _) |- _ => destruct H
  | H : In _ [] |- _ => destruct H
  | H : False |- _ => destruct H
  end.

Lemma cycle_actions_persist (env : wake_env) (g1 : incoming) y m w p v q t :
  (In ActPersistPrice (cycle_actions env g1 (ActDraw y m w p v q t))
   <-> gotPrice g1 = true) /\
  (In ActPersistBalance (cycle_actions env g1 (ActDraw y m w p v q t))
   <-> gotBalance g1 = true).
Proof.
  unfold cycle_actions.
  destruct (wifi_up env), (broker_up env), (gotPrice g1), (gotBalance g1);
    cbn [andb]; (split; split; intros H;
      try reflexivity;
      try (exfalso; split_membership; discriminate);
      try (rewrite !in_app_iff; simpl; tauto)).
Qed.

Lemma cycle_actions_split (env : wake_env) (g1 : incoming) (draw : action) :
  exists pre post,
    cycle_actions env g1 draw = pre ++ ActResetIncoming :: post /\
    pre = [ActDisplayBegin; ActReadBattery; ActConnectWiFi]
          ++ (if wifi_up env then [ActSyncTime] else []).
Proof.
  unfold cycle_actions. eexists. eexists. split; [|reflexivity].
  rewrite <- !app_assoc. reflexivity.
Qed.

Lemma reset_precedes_after (P : action -> bool) (pre post : list action) :
  P ActResetIncoming = false ->
  (forall a, In a pre -> P a = false) ->
  reset_precedes P (pre ++ ActResetIncoming :: post).
Proof.
  intros HR Hpre pre' a post' Heq HP.
  apply app_eq_app in Heq as [l [[H1 H2]|[H1 H2]]].
  - destruct l as [|a' l]; simpl in H2; injection H2 as -> H2.
    + congruence.
    + rewrite Hpre in HP; [discriminate|]. rewrite H1. apply in_app_iff.
      right. left. reflexivity.
  - destruct l as [|x l]; simpl in H2; injection H2 as H2 H3.
    + congruence.
    + rewrite H1. apply in_app_iff. right. left. congruence.
Qed.

(** ** The claims about the wake cycle *)

(** C7.  In every wake cycle each retained text field is overwritten if
    and only if the flag of its topic is set, that is, if and only if the
    topic delivered a value in this cycle.  When only the balance topic
    delivers, [lastBalanceBtc] afterwards holds the text kept of the last
    balance payload (the payload itself when it has at most 15 bytes and
    no NUL) and [lastPriceUsd] is unchanged byte for byte; when neither
    delivers, both fields are unchanged. *)
Theorem retained_text_written_iff_received
    (powf : float -> float -> float) (env : wake_env) (m0 : machine) :
  arrays_16 m0 ->
  exists vals m1 acts,
    setup powf env m0 = Some (vals, m1) /\
    log m1 = log m0 ++ acts /\
    gotPrice (ram m1) = delivers TOPIC_PRICE_USD env /\
    gotBalance (ram m1) = delivers TOPIC_BALANCE_BTC env /\
    (In ActPersistPrice acts <-> gotPrice (ram m1) = true) /\
    (In ActPersistBalance acts <-> gotBalance (ram m1) = true) /\
    lastPriceUsd (rtc m1)
    = (if gotPrice (ram m1)
       then <[15%nat := NUL]> (strncpy (lastPriceUsd (rtc m0)) (priceUsdBuf (ram m1)) 15)
       else lastPriceUsd (rtc m0)) /\
    lastBalanceBtc (rtc m1)
    = (if gotBalance (ram m1)
       then <[15%nat := NUL]> (strncpy (lastBalanceBtc (rtc m0)) (balanceBtcBuf (ram m1)) 15)
       else lastBalanceBtc (rtc m0)) /\
    (delivers TOPIC_PRICE_USD env = false ->
     delivers TOPIC_BALANCE_BTC env = true ->
     lastPriceUsd (rtc m1) = lastPriceUsd (rtc m0) /\
     exists p,
       last_payload TOPIC_BALANCE_BTC (handed_over env) = Some p /\
       c_str (lastBalanceBtc (rtc m1)) = stored_text p /\
       ((length p <= 15)%nat -> Forall (fun c => c <> NUL) p ->
        c_str (lastBalanceBtc (rtc m1)) = string_of_list_ascii p)) /\
    (delivers TOPIC_PRICE_USD env = false ->
     delivers TOPIC_BALANCE_BTC env = false ->
     lastPriceUsd (rtc m1) = lastPriceUsd (rtc m0) /\
     lastBalanceBtc (rtc m1) = lastBalanceBtc (rtc m0)).
Proof.
  intros (Hlp & Hlb & Hbp & Hbb).
  destruct (setup_run powf env m0) as (res & _ & Hrun).
  destruct (final_flags env (ram m0)) as [Fp Fb].
  destruct (fold_deliver (handed_over env) (reset_incoming (ram m0)))
    as (_ & _ & _ & _ & _ & Tb).
  { simpl. rewrite length_insert. exact Hbp. }
  { simpl. rewrite length_insert. exact Hbb. }
  fold (final_incoming env (ram m0)) in Tb.
  set (g1 := final_incoming env (ram m0)) in *.
  eexists. eexists. eexists. split; [exact Hrun|]. cbn [rtc ram log].
  split; [reflexivity|]. split; [exact Fp|]. split; [exact Fb|].
  split; [apply cycle_actions_persist|]. split; [apply cycle_actions_persist|].
  split; [reflexivity|]. split; [reflexivity|]. split.
  - intros Dp Db. cbn [lastPriceUsd lastBalanceBtc]. rewrite Fp, Fb, Dp, Db.
    split; [reflexivity|].
    apply last_payload_exists in Db as [p Hp]. exists p.
    rewrite Hp in Tb.
    assert (Hc : c_str (persisted true (lastBalanceBtc (rtc m0)) (balanceBtcBuf g1))
                 = stored_text p).
    { rewrite persisted_text; [exact Tb|exact Hlb|].
      rewrite Tb. apply stored_text_length. }
    split; [exact Hp|]. split; [exact Hc|].
    intros Hl Hn. rewrite Hc. apply stored_text_whole; assumption.
  - intros Dp Db. cbn [lastPriceUsd lastBalanceBtc]. rewrite Fp, Fb, Dp, Db.
    split; reflexivity.
Qed.

(** C8 (as amended).  In every wake cycle a value that was not received
    is taken from the retained text.  In a cycle where both topics are
    silent and the retained texts still hold the sentinel ["--"], the
    cycle computes price 0.0, balance 0.0 and the duration (0, 0, 0) and
    leaves both retained texts at the sentinel; the two retained battery
    fields hold the measurement of this cycle. *)
Theorem silent_cycle_falls_back
    (powf : float -> float -> float) (env : wake_env) (m0 : machine) :
  exists vals m1,
    setup powf env m0 = Some (vals, m1) /\
    (delivers TOPIC_PRICE_USD env = false ->
     val_priceUsd vals = parseFloatSafe (Some (c_str (lastPriceUsd (rtc m0))))) /\
    (delivers TOPIC_BALANCE_BTC env = false ->
     val_balanceBtc vals = parseFloatSafe (Some (c_str (lastBalanceBtc (rtc m0))))) /\
    lastBatteryVoltage (rtc m1) = readBatteryVoltage (adc_raw env) /\
    lastBatteryPercent (rtc m1)
    = batteryPercentFromVoltage (readBatteryVoltage (adc_raw env)) /\
    (delivers TOPIC_PRICE_USD env = false ->
     delivers TOPIC_BALANCE_BTC env = false ->
     lastPriceUsd (rtc m0) = char_array 16 "--" ->
     lastBalanceBtc (rtc m0) = char_array 16 "--" ->
     val_priceUsd vals = F32.zero /\
     val_balanceBtc vals = F32.zero /\
     val_longevity vals = mkLongevity 0 0 0 /\
     lastPriceUsd (rtc m1) = char_array 16 "--" /\
     lastBalanceBtc (rtc m1) = char_array 16 "--").
Proof.
  destruct (setup_run powf env m0) as (res & Hres & Hrun).
  destruct (final_flags env (ram m0)) as [Fp Fb].
  set (g1 := final_incoming env (ram m0)) in *.
  eexists. eexists. split; [exact Hrun|].
  cbn [rtc ram log val_priceUsd val_balanceBtc val_longevity
       lastPriceUsd lastBalanceBtc lastBatteryVoltage lastBatteryPercent].
  split; [intros Dp; rewrite Fp, Dp; reflexivity|].
  split; [intros Db; rewrite Fb, Db; reflexivity|].
  split; [reflexivity|]. split; [reflexivity|].
  intros Dp Db Sp Sb. rewrite Fp, Fb, Dp, Db in *. cbn [persisted].
  rewrite Sp, Sb in *.
  change (parseFloatSafe (Some (c_str (char_array 16 "--")))) with F32.zero in *.
  split; [reflexivity|]. split; [reflexivity|].
  split; [|split; reflexivity].
  change (F32.zero * F32.zero)%f32 with F32.zero in Hres.
  rewrite (longevity_without_funds powf F32.zero MONTHLY_EXP_USD INFLATION_ANNUAL)
    in Hres by (left; reflexivity).
  congruence.
Qed.

Lemma retained_text_written_iff_received_witness :
  arrays_16 machine_power_on /\
  exists vals m1,
    setup powf_base_one env_balance_only machine_power_on = Some (vals, m1) /\
    lastPriceUsd (rtc m1) = lastPriceUsd (rtc machine_power_on) /\
    c_str (lastBalanceBtc (rtc m1)) = "0.5"%string.
Proof.
  assert (H16 : arrays_16 machine_power_on) by (repeat split; reflexivity).
  split; [exact H16|].
  destruct (retained_text_written_iff_received powf_base_one env_balance_only
              machine_power_on H16)
    as (vals & m1 & acts & Hrun & _ & _ & _ & _ & _ & _ & _ & Honly & _).
  exists vals, m1. split; [exact Hrun|].
  destruct Honly as (Hprice & p & Hp & _ & Hwhole); try reflexivity.
  split; [exact Hprice|].
  injection Hp as <-. apply Hwhole.
  - simpl. lia.
  - repeat constructor; discriminate.
Defined.

Lemma silent_cycle_falls_back_witness :
  exists vals m1,
    setup powf_base_one env_offline machine_power_on = Some (vals, m1) /\
    val_priceUsd vals = F32.zero /\
    val_balanceBtc vals = F32.zero /\
    val_longevity vals = mkLongevity 0 0 0 /\
    lastPriceUsd (rtc m1) = char_array 16 "--" /\
    lastBalanceBtc (rtc m1) = char_array 16 "--".
Proof.
  destruct (silent_cycle_falls_back powf_base_one env_offline machine_power_on)
    as (vals & m1 & Hrun & _ & _ & _ & _ & Hsilent).
  exists vals, m1. split; [exact Hrun|].
  apply Hsilent; reflexivity.
Defined.

(** C8 (as stated) fails: the silent cycle at first power-on does not
    leave the retained state at its sentinel values; the battery fields
    are overwritten (here with 3.95 V and 90 %). *)
Lemma silent_cycle_overwrites_battery :
  delivers TOPIC_PRICE_USD env_offline = false /\
  delivers TOPIC_BALANCE_BTC env_offline = false /\
  exists vals m1,
    setup powf_base_one env_offline machine_power_on = Some (vals, m1) /\
    lastBatteryPercent (rtc m1) = 90 /\
    lastBatteryPercent rtc_power_on = -1 /\
    rtc m1 <> rtc_power_on.
Proof.
  split; [reflexivity|]. split; [reflexivity|].
  eexists. eexists. split; [vm_compute; reflexivity|].
  split; [reflexivity|]. split; [reflexivity|].
  intros H. apply (f_equal lastBatteryPercent) in H. vm_compute in H.
  discriminate.
Qed.

(** Whatever the flags and buffers hold when [setup()] is entered, they are
    put into their not-yet-received state before any MQTT operation (the
    connection to the broker and the servicing of messages) begins, and
    everything the callback stores in the cycle is stored on top of that
    state. *)
Lemma reset_before_mqtt_from_any_state
    (powf : float -> float -> float) (env : wake_env) (m0 : machine) :
  exists vals m1 pre post,
    setup powf env m0 = Some (vals, m1) /\
    log m1 = log m0 ++ pre ++ ActResetIncoming :: post /\
    In ActConnectWiFi pre /\
    (forall a, In a pre -> is_mqtt a = false) /\
    reset_precedes is_mqtt (pre ++ ActResetIncoming :: post) /\
    not_yet_received (reset_incoming (ram m0)) /\
    ram m1 = fold_left deliver (handed_over env) (reset_incoming (ram m0)).
Proof.
  destruct (setup_run powf env m0) as (res & _ & Hrun).
  match type of Hrun with
  | context [cycle_actions env ?g ?d] =>
      destruct (cycle_actions_split env g d) as (pre & post & Hsplit & Hpre)
  end.
  rewrite Hsplit in Hrun.
  assert (Hno : forall a, In a pre -> is_mqtt a = false).
  { intros a Ha. rewrite Hpre in Ha.
    destruct (wifi_up env); simpl in Ha;
      repeat (destruct Ha as [<-|Ha]; [reflexivity|]); destruct Ha. }
  eexists. eexists. exists pre, post. split; [exact Hrun|]. cbn [rtc ram log].
  split; [reflexivity|].
  split; [rewrite Hpre; simpl; tauto|].
  split; [exact Hno|].
  split; [apply reset_precedes_after; [reflexivity|exact Hno]|].
  split; [apply reset_not_yet_received|reflexivity].
Qed.

(** The assignments [gotPrice = false; ...] themselves are not the first
    statements of [setup()]: with WiFi up, [connectWiFi()] and the time
    synchronisation are logged before them.  The variables still hold
    their initialisers at that point, as the theorem below shows. *)
Lemma reset_assignments_follow_wifi :
  exists vals m1,
    setup powf_base_one env_balance_only machine_power_on = Some (vals, m1) /\
    ~ reset_precedes is_network (log m1).
Proof.
  eexists. eexists. split; [vm_compute; reflexivity|].
  intros H.
  specialize (H [ActDisplayBegin; ActReadBattery] ActConnectWiFi _
                eq_refl eq_refl).
  simpl in H. destruct H as [H|[H|[]]]; discriminate.
Qed.

(** [setup] is the sequence of its parts. *)
Lemma setup_in_parts (powf : float -> float -> float) (env : wake_env) (m : machine) :
  setup powf env m = setup_parts powf env m.
Proof.
  unfold setup, setup_parts, setup_battery, setup_wifi, setup_time, setup_reset,
    setup_mqtt.
  cbv beta iota zeta delta [bind act set_rtc set_ram ret fst snd].
  destruct (wifi_up env); reflexivity.
Qed.

Lemma reset_of_boot : reset_incoming incoming_boot = incoming_boot.
Proof. reflexivity. Qed.


(* ================================================================== *)
(** * Part III: further properties of the sketch *)
(* ================================================================== *)

(** ** The numeric sanitizer *)

(** X1.  [parseFloatSafe] never returns a value below zero, for a null
    pointer and for every text; the value is [>= 0] unless it is a NaN,
    and it is a NaN only when [strtof] itself parsed a NaN. *)
Theorem parseFloatSafe_sanitizes (s : option string) :
  (parseFloatSafe s <? F32.zero)%f32 = false /\
  (F32.is_nan (parseFloatSafe s) = false ->
   (parseFloatSafe s >=? F32.zero)%f32 = true) /\
  (F32.is_nan (parseFloatSafe s) = true ->
   exists str, s = Some str /\ fst (strtof str) = S754_nan /\
               snd (strtof str) <> O).
Proof.
  split; [apply parseFloatSafe_not_negative|].
  split; [apply parseFloatSafe_nonnegative_unless_nan|].
  destruct s as [[|c str]|]; try discriminate.
  unfold parseFloatSafe. intros H. exists (String c str).
  destruct (strtof (String c str)) as [v n]. cbn [fst snd].
  destruct n as [|n]; [discriminate|]. cbn [Nat.eqb] in H.
  unfold clampNonNegative in H.
  destruct (v <? F32.zero)%f32; [discriminate|].
  destruct v; try discriminate.
  split; [reflexivity|]. split; [reflexivity|discriminate].
Qed.

Lemma parseFloatSafe_sanitizes_witness :
  F32.is_nan (parseFloatSafe (Some "42.5"%string)) = false /\
  (parseFloatSafe (Some "42.5"%string) >=? F32.zero)%f32 = true.
Proof.
  destruct (parseFloatSafe_sanitizes (Some "42.5"%string)) as (_ & H & _).
  split; [vm_compute; reflexivity|]. apply H. vm_compute. reflexivity.
Defined.

(** ** [safeCopy] for any destination size *)

Lemma safeCopy_index (dstSize srcLen : nat) :
  (if (srcLen <? dstSize - 1)%nat then srcLen else (dstSize - 1)%nat)
  = Nat.min srcLen (dstSize - 1).
Proof. destruct (Nat.ltb_spec srcLen (dstSize - 1)); lia. Qed.

(** X2.  For a destination of any size [dstSize >= 1] that lies within the
    array, [safeCopy] keeps the length of the array, writes a NUL at
    index [n = min(srcLen, dstSize - 1)], which is below [dstSize],
    leaves every byte after that index as it was, and below it stores
    the first [n] bytes of the source (or leaves the bytes as they were
    when the source is null or [srcLen] is 0); the string it leaves has at
    most [dstSize - 1] characters.  With [dstSize = 0] nothing is
    written. *)
Theorem safeCopy_stays_in_bounds
    (dst : list ascii) (dstSize : nat) (src : option (list ascii)) (srcLen : nat) :
  (dstSize = O -> safeCopy dst dstSize src srcLen = dst) /\
  ((0 < dstSize <= length dst)%nat ->
   let n := Nat.min srcLen (dstSize - 1) in
   let r := safeCopy dst dstSize src srcLen in
   (n < dstSize)%nat /\
   length r = length dst /\
   r !! n = Some NUL /\
   (forall i, (n < i)%nat -> r !! i = dst !! i) /\
   (String.length (c_str r) <= dstSize - 1)%nat /\
   (forall p, src = Some p -> (0 < srcLen)%nat -> (n <= length p)%nat ->
              forall i, (i < n)%nat -> r !! i = p !! i) /\
   (src = None \/ srcLen = O -> forall i, (i < n)%nat -> r !! i = dst !! i)).
Proof.
  split.
  { intros ->. reflexivity. }
  intros Hsize n r. subst r. unfold safeCopy.
  destruct (Nat.eqb_spec dstSize 0) as [|_]; [lia|].
  rewrite safeCopy_index. fold n.
  set (mid := match src with
              | Some src0 => if (0 <? srcLen)%nat then memcpy dst src0 n else dst
              | None => dst
              end).
  assert (Hmid : length mid = length dst).
  { unfold mid, memcpy. destruct src; [destruct (0 <? srcLen)%nat|];
      rewrite ?length_inserts; reflexivity. }
  assert (Hn : (n < dstSize)%nat) by (unfold n; lia).
  assert (Hat : <[n := NUL]> mid !! n = Some NUL)
    by (apply list_lookup_insert_eq; lia).
  split; [exact Hn|]. split; [rewrite length_insert; exact Hmid|].
  split; [exact Hat|]. split.
  { intros i Hi. rewrite list_lookup_insert_ne by lia.
    unfold mid, memcpy. destruct src; [destruct (0 <? srcLen)%nat|]; try reflexivity.
    apply list_lookup_inserts_ge. rewrite length_take. lia. }
  split.
  { pose proof (c_str_length_bound _ _ Hat). lia. }
  split.
  { intros p -> Hlen Hp i Hi. rewrite list_lookup_insert_ne by lia.
    unfold mid, memcpy.
    replace (0 <? srcLen)%nat with true by (symmetry; apply Nat.ltb_lt; lia).
    rewrite list_lookup_inserts by (rewrite ?length_take; lia).
    rewrite Nat.sub_0_r. apply lookup_take_lt. exact Hi. }
  intros Hnone i Hi. rewrite list_lookup_insert_ne by lia.
  unfold mid. destruct Hnone as [->| ->]; [reflexivity|].
  destruct src; reflexivity.
Qed.

Lemma safeCopy_stays_in_bounds_witness :
  (0 < 4 <= length (list_ascii_of_string "abcdef"))%nat /\
  safeCopy (list_ascii_of_string "abcdef") 4
           (Some (list_ascii_of_string "12345")) 5 !! 3%nat = Some NUL.
Proof.
  split; [simpl; lia|].
  destruct (safeCopy_stays_in_bounds (list_ascii_of_string "abcdef") 4
              (Some (list_ascii_of_string "12345")) 5) as [_ H].
  destruct H as (_ & _ & Hnul & _); [simpl; lia|exact Hnul].
Defined.

(** ** The sign of the battery percentage *)

(** A rounded result carries the sign it was given. *)
Lemma binary_round_aux_sign (s : bool) (m e : Z) (l : location) :
  match binary_round_aux F32.prec F32.emax s m e l with
  | S754_finite s' _ _ => s' = s
  | _ => True
  end.
Proof.
  unfold binary_round_aux.
  destruct (shr_fexp F32.prec F32.emax m e l) as [mrs e'].
  destruct (shr_fexp F32.prec F32.emax
              (round_nearest_even (shr_m mrs) (loc_of_shr_record mrs)) e' loc_Exact)
    as [mrs' e''].
  destruct (shr_m mrs'); try exact I.
  destruct (e'' <=? F32.emax - F32.prec); [reflexivity|exact I].
Qed.

Lemma to_int_unsigned_nonneg (x : float) :
  match x with S754_finite true _ _ => False | _ => True end ->
  0 <= F32.to_int x.
Proof.
  destruct x as [s|s| |s m e]; try (intros _; simpl; lia).
  destruct s; [contradiction|]. intros _. unfold F32.to_int.
  destruct (0 <=? e) eqn:He.
  - apply Z.mul_nonneg_nonneg; [lia|]. apply Z.pow_nonneg. lia.
  - apply Z.leb_gt in He. apply Z.div_pos; [lia|].
    apply Z.pow_pos_nonneg; lia.
Qed.

(** The integer part of [x + 0.5] is not negative when [x] is not below 0. *)
Lemma round_nearest_nonneg (x : float) :
  (x <? F32.zero)%f32 = false -> 0 <= F32.to_int (x + F32.half)%f32.
Proof.
  intros Hx. apply to_int_unsigned_nonneg.
  destruct x as [s|[]| |[] m e]; try discriminate; try exact I.
  change F32.half with (S754_finite false 8388608 (-24)).
  unfold F32.add, SFadd.
  destruct (shl_align m e (Z.min e (-24))) as [m1 e1].
  destruct (shl_align 8388608 (-24) (Z.min e (-24))) as [m2 e2].
  cbn [fst cond_Zopp].
  change (Z.pos m1 + Z.pos m2) with (Z.pos (m1 + m2)).
  unfold binary_normalize, binary_round.
  destruct (shl_align (m1 + m2) _ _) as [mz ez].
  pose proof (binary_round_aux_sign false (Z.pos mz) ez loc_Exact) as H.
  destruct (binary_round_aux _ _ _ _ _ _) as [| | |s' m' e']; try exact I.
  subst s'. exact I.
Qed.

Lemma interpolate_segment_nonneg (v : float) (i : nat) :
  0 <= interpolate_segment v i.
Proof.
  unfold interpolate_segment. cbv zeta.
  set (soc := (F32.of_int (socAt i) + _)%f32).
  apply round_nearest_nonneg.
  destruct (soc <? F32.of_int 0)%f32 eqn:Hneg.
  - reflexivity.
  - destruct (soc >? F32.of_int 100)%f32; [reflexivity|exact Hneg].
Qed.

Lemma scan_segments_nonneg (v : float) (todo i : nat) :
  0 <= scan_segments v i todo.
Proof.
  revert i. induction todo as [|todo IH]; intros i; simpl; [lia|].
  destruct (_ && _); [apply interpolate_segment_nonneg|apply IH].
Qed.

Lemma battery_percent_nonneg (v : float) : 0 <= batteryPercentFromVoltage v.
Proof.
  unfold batteryPercentFromVoltage.
  destruct (v <=? voltAt 0)%f32; [change (socAt 0) with 0; lia|].
  destruct (v >=? voltAt (NUM_POINTS - 1))%f32;
    [change (socAt (NUM_POINTS - 1)) with 100; lia|].
  apply scan_segments_nonneg.
Qed.

(** X3.  Whatever float it is given, a NaN and the infinities included,
    [batteryPercentFromVoltage] never returns a negative percentage, so
    it never returns the "no reading" value -1; for a NaN it returns 0. *)
Theorem battery_percent_never_negative (v : float) :
  0 <= batteryPercentFromVoltage v /\
  batteryPercentFromVoltage v <> -1 /\
  (F32.is_nan v = true -> batteryPercentFromVoltage v = 0).
Proof.
  pose proof (battery_percent_nonneg v) as H.
  split; [exact H|]. split; [lia|].
  destruct v; try discriminate. intros _. reflexivity.
Qed.

Lemma battery_percent_never_negative_witness :
  F32.is_nan S754_nan = true /\ batteryPercentFromVoltage S754_nan = 0.
Proof.
  destruct (battery_percent_never_negative S754_nan) as (_ & _ & H).
  split; [reflexivity|]. apply H. reflexivity.
Defined.

(** ** The percentage over the samples of the converter *)

Lemma in_adc_samples (raw : Z) : 0 <= raw <= 4095 -> In raw adc_samples.
Proof.
  intros H. unfold adc_samples. apply in_map_iff. exists (Z.to_nat raw).
  split; [lia|]. apply in_seq. lia.
Qed.

Lemma all_samples_in_range :
  forallb sample_percent_in_range adc_samples = true.
Proof. vm_compute. reflexivity. Qed.

Lemma all_samples_rise :
  forallb sample_percent_rises (map Z.of_nat (seq 0 4095)) = true.
Proof. vm_compute. reflexivity. Qed.

Lemma sample_percent_step (raw : Z) :
  0 <= raw < 4095 -> sample_percent raw <= sample_percent (raw + 1).
Proof.
  intros H. pose proof all_samples_rise as Hall.
  rewrite forallb_forall in Hall.
  specialize (Hall raw). apply Z.leb_le. apply Hall.
  apply in_map_iff. exists (Z.to_nat raw). split; [lia|]. apply in_seq. lia.
Qed.

(** X4.  For every sample [raw] of the 12-bit converter (0..4095) the
    percentage computed from it lies in [0,100]; it is 0 exactly for the
    samples up to 816 and 100 exactly for the samples from 1047 on; and
    it never falls when the sample grows. *)
Theorem sample_percent_range_and_monotone :
  (forall raw, 0 <= raw <= 4095 ->
     0 <= sample_percent raw <= 100 /\
     (sample_percent raw = 0 <-> raw <= 816) /\
     (sample_percent raw = 100 <-> 1047 <= raw)) /\
  (forall a b, 0 <= a <= b -> b <= 4095 ->
     sample_percent a <= sample_percent b).
Proof.
  split.
  - intros raw Hraw. pose proof all_samples_in_range as Hall.
    rewrite forallb_forall in Hall.
    specialize (Hall raw (in_adc_samples raw Hraw)).
    unfold sample_percent_in_range in Hall. cbv zeta in Hall.
    apply andb_true_iff in Hall as [Hall H100].
    apply andb_true_iff in Hall as [Hall H0].
    apply andb_true_iff in Hall as [Hlo Hhi].
    apply Z.leb_le in Hlo, Hhi. apply Bool.eqb_prop in H0, H100.
    split; [lia|]. split.
    + rewrite <- Z.eqb_eq, H0. apply Z.leb_le.
    + rewrite <- Z.eqb_eq, H100. apply Z.leb_le.
  - intros a b Hab Hb.
    replace b with (a + Z.of_nat (Z.to_nat (b - a))) in * by lia.
    induction (Z.to_nat (b - a)) as [|n IH].
    + rewrite Z.add_0_r. lia.
    + etransitivity; [apply IH; lia|].
      replace (a + Z.of_nat (S n)) with (a + Z.of_nat n + 1) by lia.
      apply sample_percent_step. lia.
Qed.

Lemma sample_percent_range_and_monotone_witness :
  0 <= 1000 <= 4095 /\ 0 <= sample_percent 1000 <= 100 /\
  sample_percent 900 <= sample_percent 1000.
Proof.
  destruct sample_percent_range_and_monotone as [Hrange Hmono].
  split; [lia|]. split.
  - apply Hrange. lia.
  - apply Hmono; lia.
Defined.

(** ** What the three fields say about the days *)

Lemma days_to_longevity_accounts (d : Z) :
  0 <= d <= MAX_DAYS ->
  let res := days_to_longevity d in
  365 * outYears res + 30 * outMonths res + 7 * outWeeks res <= d /\
  d <= 365 * outYears res + 30 * outMonths res + 7 * outWeeks res + 6 /\
  (outYears res = 200 -> outMonths res = 0 /\ outWeeks res = 0) /\
  (d < 7 -> res = mkLongevity 0 0 0).
Proof.
  intros Hd. rewrite days_to_longevity_reference by lia.
  unfold MAX_DAYS in Hd. unfold reference_calendar. cbn [outYears outMonths outWeeks].
  repeat split.
  - Z.to_euclidean_division_equations. lia.
  - Z.to_euclidean_division_equations. lia.
  - Z.to_euclidean_division_equations. lia.
  - Z.to_euclidean_division_equations. lia.
  - intros H7. rewrite (Z.div_small d 365), (Z.mod_small d 365) by lia.
    rewrite (Z.div_small d 30), (Z.mod_small d 30) by lia.
    rewrite (Z.div_small d 7) by lia. reflexivity.
Qed.

(** X5.  The result accounts for the days the loop counted: with [n] the
    number of days simulated (0 when the guard returns early, at most
    365*200), [365*years + 30*months + 7*weeks] is at most [n] and falls
    short of it by at most 6 days; when the cap is reached the result is
    exactly 200 years, 0 months and 0 weeks; and fewer than 7 days give
    (0, 0, 0). *)
Theorem longevity_accounts_for_days
    (powf : float -> float -> float) (w m r : float) :
  exists res n,
    computeLongevityWithInflation powf w m r = Some res /\
    0 <= n <= 365 * 200 /\
    (((w <=? F32.zero)%f32 || (m <=? F32.zero)%f32 = true /\ n = 0) \/
     ((w <=? F32.zero)%f32 || (m <=? F32.zero)%f32 = false /\
      exists sf,
        after_days (Z.to_nat n) (dailyMul_of powf r) (sim_start w m) = Some sf /\
        day_step (dailyMul_of powf r) sf = None)) /\
    365 * outYears res + 30 * outMonths res + 7 * outWeeks res <= n /\
    n <= 365 * outYears res + 30 * outMonths res + 7 * outWeeks res + 6 /\
    (outYears res = 200 -> outMonths res = 0 /\ outWeeks res = 0) /\
    (n < 7 -> res = mkLongevity 0 0 0).
Proof.
  unfold computeLongevityWithInflation.
  destruct ((w <=? F32.zero)%f32 || (m <=? F32.zero)%f32) eqn:Hguard.
  - exists no_longevity, 0. split; [reflexivity|]. split; [lia|].
    split; [left; split; reflexivity|].
    unfold no_longevity. cbn [outYears outMonths outWeeks].
    repeat split; try lia; discriminate.
  - cbv zeta.
    destruct (day_loop_from_start (dailyMul_of powf r) (sim_start w m))
      as (n & sf & Hn & Ha & He & Hd & Hl); [reflexivity|].
    rewrite Hl. exists (days_to_longevity (days sf)), (Z.of_nat n).
    assert (Hr : 0 <= Z.of_nat n <= MAX_DAYS) by (unfold MAX_DAYS in *; lia).
    split; [reflexivity|]. split; [unfold MAX_DAYS in Hr; lia|].
    split.
    { right. split; [reflexivity|]. exists sf. rewrite Nat2Z.id. split; assumption. }
    rewrite Hd. apply days_to_longevity_accounts. exact Hr.
Qed.

Lemma longevity_accounts_for_days_witness :
  exists res n,
    computeLongevityWithInflation powf_base_one
      (F32.of_int 360) (F32.of_int 30) F32.zero = Some res /\
    365 * outYears res + 30 * outMonths res + 7 * outWeeks res <= n /\
    n <= 365 * outYears res + 30 * outMonths res + 7 * outWeeks res + 6.
Proof.
  destruct (longevity_accounts_for_days powf_base_one
              (F32.of_int 360) (F32.of_int 30) F32.zero)
    as (res & n & Hres & _ & _ & Hlo & Hhi & _).
  exists res, n. split; [exact Hres|]. split; assumption.
Defined.

(** ** Wealth that is not a finite number *)

Lemma reference_days_unbounded_wealth cap dailyMul :
  forall rem exp,
    rem = S754_nan \/ rem = S754_infinity false ->
    reference_days cap dailyMul rem exp = cap.
Proof.
  induction cap as [|cap IH]; intros rem exp Hrem; [reflexivity|].
  simpl.
  assert (Hlt : (rem <? exp)%f32 = false).
  { destruct Hrem as [-> | ->]; [reflexivity|].
    destruct exp as [[]|[]| |[] me ee]; reflexivity. }
  rewrite Hlt. f_equal. apply IH.
  destruct Hrem as [-> | ->]; [left; reflexivity|].
  destruct exp as [[]|[]| |[] me ee]; cbv; auto.
Qed.

Lemma longevity_of_unbounded_wealth
    (powf : float -> float -> float) (w m r : float) :
  w = S754_nan \/ w = S754_infinity false ->
  (m <=? F32.zero)%f32 = false ->
  computeLongevityWithInflation powf w m r = Some (mkLongevity 200 0 0).
Proof.
  intros Hw Hm. unfold computeLongevityWithInflation.
  replace (w <=? F32.zero)%f32 with false
    by (destruct Hw as [-> | ->]; reflexivity).
  rewrite Hm. cbn [orb]. cbv zeta.
  destruct (day_loop_reference (dailyMul_of powf r) (Z.to_nat MAX_DAYS)
              (sim_start w m) day_fuel) as (sf & Hl & Hd).
  - cbn [sim_start days]. lia.
  - cbn [sim_start days]. unfold MAX_DAYS. lia.
  - unfold day_fuel. lia.
  - rewrite Hl, Hd. cbn [sim_start remaining dailyExpense days].
    rewrite reference_days_unbounded_wealth by exact Hw. reflexivity.
Qed.

(** X6.  A wealth that is a NaN or plus infinity, with a monthly expense
    that is not [<= 0], runs the day loop to its cap whatever [powf]
    returns: the result is (200, 0, 0). *)
Theorem longevity_saturates_on_unbounded_wealth
    (powf : float -> float -> float) (w m r : float) :
  w = S754_nan \/ w = S754_infinity false ->
  (m <=? F32.zero)%f32 = false ->
  computeLongevityWithInflation powf w m r = Some (mkLongevity 200 0 0).
Proof. exact (longevity_of_unbounded_wealth powf w m r). Qed.

Lemma longevity_saturates_on_unbounded_wealth_witness :
  (MONTHLY_EXP_USD <=? F32.zero)%f32 = false /\
  computeLongevityWithInflation powf_base_one (S754_infinity false)
    MONTHLY_EXP_USD INFLATION_ANNUAL = Some (mkLongevity 200 0 0).
Proof.
  split; [reflexivity|].
  apply (longevity_saturates_on_unbounded_wealth powf_base_one
           (S754_infinity false) MONTHLY_EXP_USD INFLATION_ANNUAL).
  - right; reflexivity.
  - reflexivity.
Defined.

(** ** A cycle in which a value is zero *)

Lemma mul_zero_finite (x y : float) :
  is_zero x = true \/ is_zero y = true ->
  is_finite x && is_finite y = true ->
  is_zero (x * y)%f32 = true.
Proof.
  destruct x as [sx|sx| |sx mx ex], y as [sy|sy| |sy my ey];
    cbn; intros [H|H] F; try discriminate; reflexivity.
Qed.

Lemma mul_zero_not_finite (x y : float) :
  is_zero x = true \/ is_zero y = true ->
  is_finite x && is_finite y = false ->
  (x * y)%f32 = S754_nan.
Proof.
  destruct x as [sx|sx| |sx mx ex], y as [sy|sy| |sy my ey];
    cbn; intros [H|H] F; try discriminate; reflexivity.
Qed.

(** X7.  In every wake cycle the wealth is the product balance * price of
    the two parsed values.  When one of them is zero (nothing received
    and nothing retained, or an unreadable text) and both are finite, the
    cycle shows (0, 0, 0); when one is zero and the other is an infinity
    or a NaN, the product is a NaN and the cycle shows (200, 0, 0). *)
Theorem cycle_with_a_zero_value
    (powf : float -> float -> float) (env : wake_env) (m0 : machine) :
  exists vals m1,
    setup powf env m0 = Some (vals, m1) /\
    val_usdWealth vals = (val_balanceBtc vals * val_priceUsd vals)%f32 /\
    (is_zero (val_priceUsd vals) = true \/ is_zero (val_balanceBtc vals) = true ->
     val_longevity vals
     = if is_finite (val_priceUsd vals) && is_finite (val_balanceBtc vals)
       then mkLongevity 0 0 0 else mkLongevity 200 0 0).
Proof.
  destruct (setup_run powf env m0) as (res & Hres & Hrun).
  eexists. eexists. split; [exact Hrun|].
  cbn [val_usdWealth val_balanceBtc val_priceUsd val_longevity].
  split; [reflexivity|].
  set (p := parseFloatSafe (Some (c_str (if gotPrice _ then _ else _)))) in *.
  set (b := parseFloatSafe (Some (c_str (if gotBalance _ then _ else _)))) in *.
  intros Hz.
  assert (Hz' : is_zero b = true \/ is_zero p = true)
    by (destruct Hz; [right|left]; assumption).
  destruct (is_finite p && is_finite b) eqn:Hfin.
  - assert (Hw : is_zero (b * p)%f32 = true).
    { apply mul_zero_finite; [exact Hz'|]. rewrite andb_comm. exact Hfin. }
    rewrite (longevity_without_funds powf (b * p)%f32) in Hres.
    + congruence.
    + left. destruct (b * p)%f32 as [[]| | |]; try discriminate; reflexivity.
  - assert (Hw : (b * p)%f32 = S754_nan).
    { apply mul_zero_not_finite; [exact Hz'|]. rewrite andb_comm. exact Hfin. }
    rewrite Hw, (longevity_of_unbounded_wealth powf S754_nan) in Hres.
    + congruence.
    + left; reflexivity.
    + reflexivity.
Qed.

Lemma cycle_with_a_zero_value_witness :
  exists vals m1,
    setup powf_base_one env_offline machine_power_on = Some (vals, m1) /\
    is_zero (val_priceUsd vals) = true /\
    val_longevity vals = mkLongevity 0 0 0.
Proof.
  destruct (cycle_with_a_zero_value powf_base_one env_offline machine_power_on)
    as (vals & m1 & Hrun & _ & Hz).
  exists vals, m1. split; [exact Hrun|].
  assert (E : option_map fst (setup powf_base_one env_offline machine_power_on)
              = Some vals) by (rewrite Hrun; reflexivity).
  vm_compute in E. injection E as E. subst vals.
  split; [reflexivity|]. rewrite Hz; [reflexivity|left; reflexivity].
Defined.

(** ** The value a cycle works with *)

Lemma final_texts (env : wake_env) (g : incoming) :
  length (priceUsdBuf g) = 16%nat -> length (balanceBtcBuf g) = 16%nat ->
  let g1 := final_incoming env g in
  length (priceUsdBuf g1) = 16%nat /\ length (balanceBtcBuf g1) = 16%nat /\
  c_str (priceUsdBuf g1)
  = match last_payload TOPIC_PRICE_USD (handed_over env) with
    | Some p => stored_text p
    | None => EmptyString
    end /\
  c_str (balanceBtcBuf g1)
  = match last_payload TOPIC_BALANCE_BTC (handed_over env) with
    | Some p => stored_text p
    | None => EmptyString
    end.
Proof.
  intros Hp Hb g1. subst g1. unfold final_incoming.
  destruct (fold_deliver (handed_over env) (reset_incoming g))
    as (Lp & Lb & _ & _ & Tp & Tb).
  { simpl. rewrite length_insert. exact Hp. }
  { simpl. rewrite length_insert. exact Hb. }
  split; [exact Lp|]. split; [exact Lb|]. split.
  - destruct (last_payload TOPIC_PRICE_USD (handed_over env)); [exact Tp|].
    rewrite Tp. apply c_str_reset.
  - destruct (last_payload TOPIC_BALANCE_BTC (handed_over env)); [exact Tb|].
    rewrite Tb. apply c_str_reset.
Qed.

Lemma last_payload_delivers topic env p :
  last_payload topic (handed_over env) = Some p -> delivers topic env = true.
Proof. intros H. unfold delivers. apply last_payload_exists. eauto. Qed.

(** X8.  When a topic delivers in a cycle, the value the cycle computes
    with is parsed from the first 15 bytes of the last payload stored for
    that topic, and this same text is what the retained field holds
    afterwards; earlier payloads of the cycle have no effect on either. *)
Theorem cycle_uses_last_payload
    (powf : float -> float -> float) (env : wake_env) (m0 : machine) :
  arrays_16 m0 ->
  exists vals m1,
    setup powf env m0 = Some (vals, m1) /\
    (forall p, last_payload TOPIC_PRICE_USD (handed_over env) = Some p ->
       val_priceUsd vals = parseFloatSafe (Some (stored_text p)) /\
       c_str (lastPriceUsd (rtc m1)) = stored_text p) /\
    (forall p, last_payload TOPIC_BALANCE_BTC (handed_over env) = Some p ->
       val_balanceBtc vals = parseFloatSafe (Some (stored_text p)) /\
       c_str (lastBalanceBtc (rtc m1)) = stored_text p).
Proof.
  intros (Hlp & Hlb & Hbp & Hbb).
  destruct (setup_run powf env m0) as (res & _ & Hrun).
  destruct (final_flags env (ram m0)) as [Fp Fb].
  destruct (final_texts env (ram m0) Hbp Hbb) as (_ & _ & Tp & Tb).
  set (g1 := final_incoming env (ram m0)) in *.
  eexists. eexists. split; [exact Hrun|].
  cbn [rtc val_priceUsd val_balanceBtc lastPriceUsd lastBalanceBtc].
  split.
  - intros p Hp. rewrite Fp, (last_payload_delivers _ _ _ Hp).
    rewrite Hp in Tp. rewrite persisted_text, Tp.
    + split; reflexivity.
    + exact Hlp.
    + rewrite Tp. apply stored_text_length.
  - intros p Hp. rewrite Fb, (last_payload_delivers _ _ _ Hp).
    rewrite Hp in Tb. rewrite persisted_text, Tb.
    + split; reflexivity.
    + exact Hlb.
    + rewrite Tb. apply stored_text_length.
Qed.

Lemma cycle_uses_last_payload_witness :
  arrays_16 machine_power_on /\
  exists vals m1,
    setup powf_base_one env_balance_only machine_power_on = Some (vals, m1) /\
    val_balanceBtc vals = F32.decimal 5 1.
Proof.
  assert (H16 : arrays_16 machine_power_on) by (repeat split; reflexivity).
  split; [exact H16|].
  destruct (cycle_uses_last_payload powf_base_one env_balance_only
              machine_power_on H16) as (vals & m1 & Hrun & _ & Hbal).
  exists vals, m1. split; [exact Hrun|].
  destruct (Hbal (list_ascii_of_string "0.5") eq_refl) as [-> _].
  vm_compute. reflexivity.
Defined.

(** ** Stale incoming values *)

Lemma persisted_by_text (got : bool) (last buf buf' : list ascii) :
  c_str buf = c_str buf' -> persisted got last buf = persisted got last buf'.
Proof. intros H. unfold persisted, strncpy. rewrite H. reflexivity. Qed.

(** X9.  What the flags and buffers hold when a cycle starts has no
    influence on the cycle: from the same retained data and the same
    surroundings, two runs that start with different flags and buffers
    (16 bytes each) compute the same values, perform the same steps, end
    with the same flags and buffered texts and retain the same data. *)
Theorem cycle_ignores_stale_incoming
    (powf : float -> float -> float) (env : wake_env)
    (r : rtc_data) (g g' : incoming) (l l' : list action) :
  length (priceUsdBuf g) = 16%nat -> length (balanceBtcBuf g) = 16%nat ->
  length (priceUsdBuf g') = 16%nat -> length (balanceBtcBuf g') = 16%nat ->
  exists vals m1 m1' acts,
    setup powf env (mkMachine r g l) = Some (vals, m1) /\
    setup powf env (mkMachine r g' l') = Some (vals, m1') /\
    log m1 = l ++ acts /\ log m1' = l' ++ acts /\
    rtc m1 = rtc m1' /\
    gotPrice (ram m1) = gotPrice (ram m1') /\
    gotBalance (ram m1) = gotBalance (ram m1') /\
    c_str (priceUsdBuf (ram m1)) = c_str (priceUsdBuf (ram m1')) /\
    c_str (balanceBtcBuf (ram m1)) = c_str (balanceBtcBuf (ram m1')).
Proof.
  intros Hp Hb Hp' Hb'.
  destruct (setup_run powf env (mkMachine r g l)) as (res & Hres & Hrun).
  destruct (setup_run powf env (mkMachine r g' l')) as (res' & Hres' & Hrun').
  cbn [rtc ram log] in *.
  destruct (final_flags env g) as [Fp Fb].
  destruct (final_flags env g') as [Fp' Fb'].
  destruct (final_texts env g Hp Hb) as (_ & _ & Tp & Tb).
  destruct (final_texts env g' Hp' Hb') as (_ & _ & Tp' & Tb').
  set (g1 := final_incoming env g) in *.
  set (g1' := final_incoming env g') in *.
  assert (Ep : c_str (priceUsdBuf g1) = c_str (priceUsdBuf g1')) by congruence.
  assert (Eb : c_str (balanceBtcBuf g1) = c_str (balanceBtcBuf g1')) by congruence.
  assert (Gp : gotPrice g1 = gotPrice g1') by congruence.
  assert (Gb : gotBalance g1 = gotBalance g1') by congruence.
  assert (Sp : c_str (if gotPrice g1 then priceUsdBuf g1 else lastPriceUsd r)
               = c_str (if gotPrice g1' then priceUsdBuf g1' else lastPriceUsd r)).
  { rewrite <- Gp. destruct (gotPrice g1); [exact Ep|reflexivity]. }
  assert (Sb : c_str (if gotBalance g1 then balanceBtcBuf g1 else lastBalanceBtc r)
               = c_str (if gotBalance g1' then balanceBtcBuf g1' else lastBalanceBtc r)).
  { rewrite <- Gb. destruct (gotBalance g1); [exact Eb|reflexivity]. }
  rewrite <- Sp, <- Sb in Hres', Hrun'.
  assert (res' = res) by congruence. subst res'.
  rewrite <- Gp, <- Gb in Hrun'.
  rewrite <- (persisted_by_text _ _ _ _ Ep), <- (persisted_by_text _ _ _ _ Eb) in Hrun'.
  replace (cycle_actions env g1') with (cycle_actions env g1) in Hrun'
    by (unfold cycle_actions; rewrite Gp, Gb; reflexivity).
  eexists. eexists. eexists. eexists.
  split; [exact Hrun|]. split; [exact Hrun'|]. cbn [rtc ram log].
  repeat split; assumption || reflexivity.
Qed.

Lemma cycle_ignores_stale_incoming_witness :
  exists vals m1 m1',
    setup powf_base_one env_balance_only
      (mkMachine rtc_power_on incoming_boot []) = Some (vals, m1) /\
    setup powf_base_one env_balance_only
      (mkMachine rtc_power_on
         (mkIncoming true true (char_array 16 "99999") (char_array 16 "7")) [])
    = Some (vals, m1') /\
    rtc m1 = rtc m1'.
Proof.
  destruct (cycle_ignores_stale_incoming powf_base_one env_balance_only
              rtc_power_on incoming_boot
              (mkIncoming true true (char_array 16 "99999") (char_array 16 "7"))
              [] []) as (vals & m1 & m1' & acts & H1 & H2 & _ & _ & Hr & _);
    try reflexivity.
  exists vals, m1, m1'. repeat split; assumption.
Defined.

(** ** The arrays after a cycle *)

Lemma c_str_stops (a : list ascii) :
  (String.length (c_str a) < length a)%nat ->
  a !! String.length (c_str a) = Some NUL.
Proof.
  induction a as [|c a IH]; simpl; [lia|].
  destruct (Ascii.eqb_spec c NUL) as [->|Hc]; simpl; [reflexivity|].
  intros H. apply IH. lia.
Qed.

Lemma holds_string_by_text (a : list ascii) :
  length a = 16%nat -> (String.length (c_str a) <= 15)%nat -> holds_string a.
Proof.
  intros Hl Hc. split; [exact Hl|].
  exists (String.length (c_str a)). split; [exact Hc|].
  apply c_str_stops. lia.
Qed.

Lemma persisted_holds_string (got : bool) (last buf : list ascii) :
  length last = 16%nat ->
  length (persisted got last buf) = 16%nat /\
  (got = true \/ holds_string last -> holds_string (persisted got last buf)).
Proof.
  intros Hl. unfold persisted. destruct got.
  - assert (Hlen : length (<[15%nat := NUL]> (strncpy last buf 15)) = 16%nat).
    { rewrite length_insert. unfold strncpy. rewrite length_inserts. exact Hl. }
    split; [exact Hlen|]. intros _. split; [exact Hlen|].
    exists 15%nat. split; [lia|]. apply list_lookup_insert_eq.
    unfold strncpy. rewrite length_inserts. lia.
  - split; [exact Hl|]. intros [H|H]; [discriminate|exact H].
Qed.

(** X10.  A cycle keeps the four character arrays at 16 bytes.  After it,
    both incoming buffers hold a NUL-terminated string, a retained text
    that was overwritten holds one, a retained text that was not
    overwritten is as it was, and the retained battery percentage is not
    negative: the value -1 of first power-on does not survive a cycle. *)
Theorem cycle_keeps_arrays
    (powf : float -> float -> float) (env : wake_env) (m0 : machine) :
  arrays_16 m0 ->
  exists vals m1,
    setup powf env m0 = Some (vals, m1) /\
    arrays_16 m1 /\
    holds_string (priceUsdBuf (ram m1)) /\
    holds_string (balanceBtcBuf (ram m1)) /\
    (gotPrice (ram m1) = true \/ holds_string (lastPriceUsd (rtc m0)) ->
     holds_string (lastPriceUsd (rtc m1))) /\
    (gotBalance (ram m1) = true \/ holds_string (lastBalanceBtc (rtc m0)) ->
     holds_string (lastBalanceBtc (rtc m1))) /\
    0 <= lastBatteryPercent (rtc m1).
Proof.
  intros (Hlp & Hlb & Hbp & Hbb).
  destruct (setup_run powf env m0) as (res & _ & Hrun).
  destruct (final_texts env (ram m0) Hbp Hbb) as (Lp & Lb & Tp & Tb).
  set (g1 := final_incoming env (ram m0)) in *.
  destruct (persisted_holds_string (gotPrice g1) (lastPriceUsd (rtc m0))
              (priceUsdBuf g1) Hlp) as [Plen Pstr].
  destruct (persisted_holds_string (gotBalance g1) (lastBalanceBtc (rtc m0))
              (balanceBtcBuf g1) Hlb) as [Blen Bstr].
  assert (Sp : (String.length (c_str (priceUsdBuf g1)) <= 15)%nat).
  { rewrite Tp. destruct (last_payload TOPIC_PRICE_USD _);
      [apply stored_text_length|simpl; lia]. }
  assert (Sb : (String.length (c_str (balanceBtcBuf g1)) <= 15)%nat).
  { rewrite Tb. destruct (last_payload TOPIC_BALANCE_BTC _);
      [apply stored_text_length|simpl; lia]. }
  eexists. eexists. split; [exact Hrun|].
  unfold arrays_16.
  cbn [rtc ram lastPriceUsd lastBalanceBtc lastBatteryPercent].
  split; [repeat split; assumption|].
  split; [apply holds_string_by_text; assumption|].
  split; [apply holds_string_by_text; assumption|].
  split; [exact Pstr|]. split; [exact Bstr|].
  apply battery_percent_nonneg.
Qed.

Lemma cycle_keeps_arrays_witness :
  arrays_16 machine_power_on /\
  exists vals m1,
    setup powf_base_one env_balance_only machine_power_on = Some (vals, m1) /\
    arrays_16 m1.
Proof.
  assert (H16 : arrays_16 machine_power_on) by (repeat split; reflexivity).
  split; [exact H16|].
  destruct (cycle_keeps_arrays powf_base_one env_balance_only machine_power_on H16)
    as (vals & m1 & Hrun & Harr & _).
  exists vals, m1. split; assumption.
Defined.

(** ** From one cycle to the next *)

(** X11.  A value received in one cycle serves the next: when a topic
    delivers in a cycle and is silent in the cycle that follows (started
    on the retained data of the first, with any 16-byte buffers), the
    second cycle computes with the value the first one computed with. *)
Theorem retained_value_serves_next_cycle
    (powf : float -> float -> float) (env1 env2 : wake_env)
    (m0 : machine) (g2 : incoming) (l2 : list action) :
  arrays_16 m0 ->
  length (priceUsdBuf g2) = 16%nat -> length (balanceBtcBuf g2) = 16%nat ->
  exists v1 m1 v2 m2,
    setup powf env1 m0 = Some (v1, m1) /\
    setup powf env2 (mkMachine (rtc m1) g2 l2) = Some (v2, m2) /\
    (delivers TOPIC_PRICE_USD env1 = true ->
     delivers TOPIC_PRICE_USD env2 = false ->
     val_priceUsd v2 = val_priceUsd v1 /\
     lastPriceUsd (rtc m2) = lastPriceUsd (rtc m1)) /\
    (delivers TOPIC_BALANCE_BTC env1 = true ->
     delivers TOPIC_BALANCE_BTC env2 = false ->
     val_balanceBtc v2 = val_balanceBtc v1 /\
     lastBalanceBtc (rtc m2) = lastBalanceBtc (rtc m1)).
Proof.
  intros (Hlp & Hlb & Hbp & Hbb) Hp2 Hb2.
  destruct (setup_run powf env1 m0) as (res1 & _ & Hrun1).
  destruct (final_flags env1 (ram m0)) as [Fp1 Fb1].
  destruct (final_texts env1 (ram m0) Hbp Hbb) as (_ & _ & Tp1 & Tb1).
  set (g1 := final_incoming env1 (ram m0)) in *.
  match type of Hrun1 with
  | _ = Some (?v, ?m) => set (v1 := v) in *; set (m1 := m) in *
  end.
  destruct (setup_run powf env2 (mkMachine (rtc m1) g2 l2)) as (res2 & _ & Hrun2).
  destruct (final_flags env2 g2) as [Fp2 Fb2].
  cbn [rtc ram log] in Hrun2.
  exists v1, m1. eexists. eexists.
  split; [exact Hrun1|]. split; [exact Hrun2|].
  cbn [rtc val_priceUsd val_balanceBtc lastPriceUsd lastBalanceBtc].
  split.
  - intros D1 D2. rewrite Fp2, D2. cbn [persisted].
    split; [|reflexivity].
    subst m1 v1. cbn [rtc val_priceUsd lastPriceUsd].
    rewrite Fp1, D1. f_equal. f_equal.
    apply persisted_text; [exact Hlp|].
    rewrite Tp1. destruct (last_payload TOPIC_PRICE_USD _);
      [apply stored_text_length|simpl; lia].
  - intros D1 D2. rewrite Fb2, D2. cbn [persisted].
    split; [|reflexivity].
    subst m1 v1. cbn [rtc val_balanceBtc lastBalanceBtc].
    rewrite Fb1, D1. f_equal. f_equal.
    apply persisted_text; [exact Hlb|].
    rewrite Tb1. destruct (last_payload TOPIC_BALANCE_BTC _);
      [apply stored_text_length|simpl; lia].
Qed.

Lemma retained_value_serves_next_cycle_witness :
  exists v1 m1 v2 m2,
    setup powf_base_one env_balance_only machine_power_on = Some (v1, m1) /\
    setup powf_base_one env_offline (mkMachine (rtc m1) incoming_boot [])
    = Some (v2, m2) /\
    val_balanceBtc v2 = val_balanceBtc v1.
Proof.
  destruct (retained_value_serves_next_cycle powf_base_one
              env_balance_only env_offline machine_power_on incoming_boot [])
    as (v1 & m1 & v2 & m2 & H1 & H2 & _ & Hbal);
    [repeat split; reflexivity|reflexivity|reflexivity|].
  exists v1, m1, v2, m2. split; [exact H1|]. split; [exact H2|].
  apply Hbal; reflexivity.
Defined.

(** ** The wait window *)

(** X12.  The wait window is left after the first [mqttClient.loop()] at
    whose end both flags are set: rounds that would follow, and the
    messages they carry, change nothing.  (At least one round is run even
    when both flags are already set.) *)
Theorem wait_window_stops_when_complete
    (pre post : list (list mqtt_message)) (m : machine) :
  pre <> [] ->
  (let g := fold_left deliver (concat pre) (ram m) in
   gotPrice g && gotBalance g = true) ->
  service_mqtt (pre ++ post) m = service_mqtt pre m.
Proof.
  revert m. induction pre as [|msgs pre IH]; intros m Hne Hdone; [contradiction|].
  cbn [app service_mqtt bind act set_ram get_ram rtc ram log].
  destruct (gotPrice (fold_left deliver msgs (ram m))
            && gotBalance (fold_left deliver msgs (ram m))) eqn:Hnow;
    [reflexivity|].
  apply IH.
  - intros ->. cbn [concat] in Hdone. rewrite app_nil_r in Hdone.
    cbv zeta in Hdone. congruence.
  - cbn [ram]. cbn [concat] in Hdone. cbv zeta in Hdone.
    rewrite fold_left_app in Hdone. exact Hdone.
Qed.

Lemma wait_window_stops_when_complete_witness :
  service_mqtt
    ([ [mkMsg TOPIC_PRICE_USD (list_ascii_of_string "1")];
       [mkMsg TOPIC_BALANCE_BTC (list_ascii_of_string "2")] ]
     ++ [ [mkMsg TOPIC_PRICE_USD (list_ascii_of_string "3")] ])
    machine_power_on
  = service_mqtt
      [ [mkMsg TOPIC_PRICE_USD (list_ascii_of_string "1")];
        [mkMsg TOPIC_BALANCE_BTC (list_ascii_of_string "2")] ]
      machine_power_on.
Proof.
  apply (wait_window_stops_when_complete
           [ [mkMsg TOPIC_PRICE_USD (list_ascii_of_string "1")];
             [mkMsg TOPIC_BALANCE_BTC (list_ascii_of_string "2")] ]
           [ [mkMsg TOPIC_PRICE_USD (list_ascii_of_string "3")] ]
           machine_power_on).
  - discriminate.
  - reflexivity.
Defined.

(** ** The steps of a cycle *)

(** X13.  Every wake cycle, whatever the network does, draws exactly one
    frame, with the years, months, weeks and price it computed; the two
    persist steps of the retained texts ([lastPriceUsd], [lastBalanceBtc])
    come after the frame, never before it (the two battery fields are
    stored earlier, at the start of the cycle, and are not the subject
    here); and the cycle ends with the WiFi disconnect followed by the
    deep sleep. *)
Theorem cycle_draws_once_then_sleeps
    (powf : float -> float -> float) (env : wake_env) (m0 : machine) :
  exists vals m1 before between vbat pct timestamp,
    setup powf env m0 = Some (vals, m1) /\
    log m1 = log m0 ++ before
             ++ ActDraw (outYears (val_longevity vals))
                        (outMonths (val_longevity vals))
                        (outWeeks (val_longevity vals))
                        (val_priceUsd vals) vbat pct timestamp
             :: between ++ [ActWiFiDisconnect; ActSleep] /\
    (forall a, In a before -> is_draw a = false /\ is_persist_text a = false) /\
    (forall a, In a between -> is_draw a = false).
Proof.
  destruct (setup_run powf env m0) as (res & _ & Hrun).
  set (g1 := final_incoming env (ram m0)) in *.
  eexists. eexists.
  exists ([ActDisplayBegin; ActReadBattery; ActConnectWiFi]
          ++ (if wifi_up env then [ActSyncTime] else [])
          ++ [ActResetIncoming]
          ++ (if wifi_up env then [ActConnectMQTT] else [])
          ++ replicate (loops_run env) ActMqttLoop).
  exists ((if gotPrice g1 then [ActPersistPrice] else [])
          ++ (if gotBalance g1 then [ActPersistBalance] else [])
          ++ (if wifi_up env && broker_up env then [ActMqttDisconnect] else [])).
  eexists. eexists. eexists.
  split; [exact Hrun|]. cbn [log val_longevity val_priceUsd].
  split.
  - unfold cycle_actions. f_equal. rewrite <- !app_assoc. reflexivity.
  - split.
    + intros a Ha.
      destruct (wifi_up env); cbn [app] in Ha; split_membership;
        subst; split; reflexivity.
    + intros a Ha.
      destruct (gotPrice g1), (gotBalance g1), (wifi_up env && broker_up env);
        cbn [app] in Ha; split_membership; subst; reflexivity.
Qed.

Lemma cycle_draws_once_then_sleeps_witness :
  exists vals m1 before rest,
    setup powf_base_one env_offline machine_power_on = Some (vals, m1) /\
    log m1 = log machine_power_on ++ before ++ rest /\
    (forall a, In a before -> is_persist_text a = false).
Proof.
  destruct (cycle_draws_once_then_sleeps powf_base_one env_offline machine_power_on)
    as (vals & m1 & before & between & vbat & pct & ts & Hrun & Hlog & Hb & _).
  exists vals, m1, before. eexists.
  split; [exact Hrun|]. split; [exact Hlog|].
  intros a Ha. apply (Hb a Ha).
Defined.

(** ** The frame *)

(** The price a cycle computes is never negative, so neither is the
    number printed for it. *)
Lemma to_long_of_price (t : option string) (z : Z) :
  to_long (parseFloatSafe t) = Some z -> 0 <= z <= LONG_MAX.
Proof.
  pose proof (parseFloatSafe_not_negative t) as Hneg.
  destruct (parseFloatSafe t) as [s|s| |s m e] eqn:Hp; try discriminate.
  - intros H. injection H as <-. unfold LONG_MAX. lia.
  - unfold to_long. cbv zeta.
    destruct ((LONG_MIN <=? _) && (_ <=? LONG_MAX)) eqn:Hfit; [|discriminate].
    intros H. injection H as <-.
    apply andb_true_iff in Hfit as [_ Hhi]. apply Z.leb_le in Hhi.
    split; [|exact Hhi].
    apply (to_int_unsigned_nonneg (S754_finite s m e)).
    destruct s; [discriminate|exact I].
Qed.

(** X14.  The frame of a wake cycle shows the battery percentage, never
    the placeholder: the one frame drawn is the fixed layout below, whose
    battery footer prints the (non-negative) percentage computed in this
    cycle followed by ["% (Battery)"], so the branch that prints
    ["-- (Battery)"] is not taken.  The price is printed through the
    conversion [(long)priceUsd]: its integer part, never negative, when
    that fits the 32 bits of [long]; for a price of [2^31] or more, an
    infinity or a NaN the conversion is undefined in C and the number
    shown is not determined.  The time is ["--"] when WiFi did not connect
    or the time is unknown. *)
Theorem cycle_frame_shows_percentage
    (powf : float -> float -> float) (env : wake_env) (m0 : machine) :
  exists vals m1 draw,
    setup powf env m0 = Some (vals, m1) /\
    In draw (log m1) /\ is_draw draw = true /\
    frame_of draw
    = [ DClear; DSetRotation 1; DSetTextColorBlack;
        DSetTextSize 1; DSetCursor 10 8; DPrintln "FREEDOM CLOCK";
        DSetTextSize 4; DSetCursor 10 42;
        DPrintInt (outYears (val_longevity vals)); DPrint "Y";
        DSetCursor 110 42;
        DPrintInt (outMonths (val_longevity vals)); DPrint "M";
        DSetCursor 185 42;
        DPrintInt (outWeeks (val_longevity vals)); DPrint "W";
        DSetTextSize 1; DSetCursor 10 90;
        DPrintLong (to_long (val_priceUsd vals)); DPrint " (BTC price USD)";
        DSetCursor 10 100;
        DPrintInt (sample_percent (adc_raw env)); DPrint "% (Battery)";
        DSetCursor 10 110;
        DPrint (if wifi_up env
                then match local_time env with Some t => t | None => "--"%string end
                else "--"%string);
        DPrint " (Last update)"; DUpdate ] /\
    0 <= sample_percent (adc_raw env) /\
    (forall z, to_long (val_priceUsd vals) = Some z -> 0 <= z <= LONG_MAX) /\
    (to_long (val_priceUsd vals) = None ->
     is_finite (val_priceUsd vals) = false \/
     LONG_MAX < F32.to_int (val_priceUsd vals)).
Proof.
  destruct (setup_run powf env m0) as (res & _ & Hrun).
  pose proof (battery_percent_nonneg (readBatteryVoltage (adc_raw env))) as Hpct.
  fold (sample_percent (adc_raw env)) in *.
  eexists. eexists. eexists.
  split; [exact Hrun|]. cbn [log].
  split.
  { apply in_app_iff. right. unfold cycle_actions.
    rewrite !in_app_iff. do 5 right. left. left. reflexivity. }
  split; [reflexivity|].
  cbn [frame_of val_longevity val_priceUsd]. unfold drawFreedomClock.
  fold (sample_percent (adc_raw env)).
  replace (0 <=? sample_percent (adc_raw env)) with true
    by (symmetry; apply Z.leb_le; exact Hpct).
  cbn [app]. split; [reflexivity|]. split; [exact Hpct|].
  split; [intros z; apply to_long_of_price|].
  set (t := Some (c_str _)).
  pose proof (parseFloatSafe_not_negative t) as Hneg.
  destruct (parseFloatSafe t) as [s|s| |s m e] eqn:Hp;
    try discriminate; try (intros _; left; reflexivity).
  unfold to_long. cbv zeta.
  destruct (LONG_MIN <=? F32.to_int (S754_finite s m e)) eqn:Hlo;
    destruct (F32.to_int (S754_finite s m e) <=? LONG_MAX) eqn:Hhi;
    try discriminate; intros _; right.
  - apply Z.leb_gt in Hhi. exact Hhi.
  - apply Z.leb_gt in Hlo.
    assert (0 <= F32.to_int (S754_finite s m e))
      by (apply to_int_unsigned_nonneg; destruct s; [discriminate|exact I]).
    unfold LONG_MIN in Hlo. lia.
  - apply Z.leb_gt in Hhi. exact Hhi.
Qed.

Lemma cycle_frame_shows_percentage_witness :
  exists vals m1 z,
    setup powf_base_one env_balance_only machine_power_on = Some (vals, m1) /\
    to_long (val_priceUsd vals) = Some z /\ 0 <= z <= LONG_MAX.
Proof.
  destruct (cycle_frame_shows_percentage powf_base_one env_balance_only
              machine_power_on)
    as (vals & m1 & draw & Hrun & _ & _ & _ & _ & Hsome & _).
  exists vals, m1, 0. split; [exact Hrun|].
  assert (Hz : to_long (val_priceUsd vals) = Some 0).
  { assert (E : option_map fst (setup powf_base_one env_balance_only machine_power_on)
                = Some vals) by (rewrite Hrun; reflexivity).
    vm_compute in E. injection E as E. subst vals. reflexivity. }
  split; [exact Hz|]. apply Hsome. exact Hz.
Defined.

(** ** Deliveries compose *)

Lemma safeCopy_twice (dst p : list ascii) :
  length dst = 16%nat -> p <> [] ->
  safeCopy (safeCopy dst 16 (Some p) (length p)) 16 (Some p) (length p)
  = safeCopy dst 16 (Some p) (length p).
Proof.
  intros Hd Hp.
  assert (Hlen : (0 < length p)%nat) by (destruct p; [contradiction|simpl; lia]).
  assert (Hshape : forall d : list ascii, length d = 16%nat ->
            safeCopy d 16 (Some p) (length p)
            = take (Nat.min (length p) 15) p
              ++ NUL :: drop (S (Nat.min (length p) 15)) d).
  { intros d Hl. unfold safeCopy, memcpy. cbn [Nat.eqb Nat.sub].
    replace (if (length p <? 15)%nat then length p else 15%nat)
      with (Nat.min (length p) 15)
      by (destruct (Nat.ltb_spec (length p) 15); lia).
    replace (0 <? length p)%nat with true by (symmetry; apply Nat.ltb_lt; lia).
    set (n := Nat.min (length p) 15).
    assert (Hn : length (take n p) = n) by (rewrite length_take; lia).
    rewrite <- Hn at 1. rewrite insert_after_prefix by lia.
    rewrite Hn. reflexivity. }
  rewrite (Hshape dst Hd).
  set (n := Nat.min (length p) 15).
  assert (Hn : length (take n p) = n) by (unfold n; rewrite length_take; lia).
  rewrite Hshape.
  - fold n. f_equal. f_equal.
    replace (S n) with (length (take n p ++ [NUL]))
      by (rewrite length_app, Hn; simpl; lia).
    replace (take n p ++ NUL :: drop (length (take n p ++ [NUL])) dst)
      with ((take n p ++ [NUL]) ++ drop (length (take n p ++ [NUL])) dst)
      by (rewrite <- app_assoc; reflexivity).
    rewrite drop_app_length. reflexivity.
  - rewrite length_app, Hn. cbn [length]. rewrite length_drop. unfold n. lia.
Qed.

(** X15.  Deliveries compose as a user of retained or duplicated MQTT
    messages expects: handing the same message to the callback twice
    leaves the same flags and buffers as handing it once, and a message
    of the price topic and one of the balance topic can be handed over
    in either order. *)
Theorem deliveries_compose (g : incoming) :
  length (priceUsdBuf g) = 16%nat -> length (balanceBtcBuf g) = 16%nat ->
  (forall msg, deliver (deliver g msg) msg = deliver g msg) /\
  (forall m1 m2,
     msg_topic m1 = TOPIC_PRICE_USD -> msg_topic m2 = TOPIC_BALANCE_BTC ->
     deliver (deliver g m1) m2 = deliver (deliver g m2) m1).
Proof.
  intros Hp Hb. split.
  - intros msg.
    destruct (accepts TOPIC_PRICE_USD msg) eqn:Ap.
    + rewrite !(deliver_price _ _ Ap). cbn [gotBalance priceUsdBuf balanceBtcBuf].
      rewrite safeCopy_twice; [reflexivity|exact Hp|].
      unfold accepts in Ap. apply andb_true_iff in Ap as [_ Hl].
      intros E. rewrite E in Hl. discriminate.
    + destruct (accepts TOPIC_BALANCE_BTC msg) eqn:Ab.
      * rewrite !(deliver_balance _ _ Ab). cbn [gotPrice priceUsdBuf balanceBtcBuf].
        rewrite safeCopy_twice; [reflexivity|exact Hb|].
        unfold accepts in Ab. apply andb_true_iff in Ab as [_ Hl].
        intros E. rewrite E in Hl. discriminate.
      * rewrite !(deliver_other _ _ Ap Ab). reflexivity.
  - intros m1 m2 H1 H2.
    destruct (Nat.eqb_spec (length (msg_payload m1)) 0) as [E1|E1];
      destruct (Nat.eqb_spec (length (msg_payload m2)) 0) as [E2|E2].
    + rewrite !(deliver_other _ m1), !(deliver_other _ m2);
        try reflexivity; unfold accepts; rewrite ?E1, ?E2, ?andb_false_r; reflexivity.
    + rewrite !(deliver_other _ m1);
        try reflexivity; unfold accepts; rewrite ?E1, ?andb_false_r; reflexivity.
    + rewrite !(deliver_other _ m2);
        try reflexivity; unfold accepts; rewrite ?E2, ?andb_false_r; reflexivity.
    + assert (A1 : accepts TOPIC_PRICE_USD m1 = true).
      { unfold accepts. rewrite H1, String.eqb_refl.
        destruct (Nat.eqb_spec (length (msg_payload m1)) 0); [contradiction|reflexivity]. }
      assert (A2 : accepts TOPIC_BALANCE_BTC m2 = true).
      { unfold accepts. rewrite H2, String.eqb_refl.
        destruct (Nat.eqb_spec (length (msg_payload m2)) 0); [contradiction|reflexivity]. }
      rewrite !(deliver_price _ _ A1), !(deliver_balance _ _ A2).
      reflexivity.
Qed.

Lemma deliveries_compose_witness :
  deliver (deliver incoming_boot (mkMsg TOPIC_PRICE_USD (list_ascii_of_string "97000.5")))
          (mkMsg TOPIC_PRICE_USD (list_ascii_of_string "97000.5"))
  = deliver incoming_boot (mkMsg TOPIC_PRICE_USD (list_ascii_of_string "97000.5")).
Proof.
  destruct (deliveries_compose incoming_boot) as [Hdup _];
    [reflexivity|reflexivity|].
  apply Hdup.
Defined.

(** ** A cycle without the broker *)

(** X16.  When WiFi or the broker does not connect, the cycle never calls
    [mqttClient.loop()], receives nothing whatever the broker would have
    sent, leaves both retained texts unchanged byte for byte and computes
    with the values parsed from them; without WiFi it makes no MQTT step
    and no time synchronisation at all. *)
Theorem cycle_without_broker
    (powf : float -> float -> float) (env : wake_env) (m0 : machine) :
  wifi_up env && broker_up env = false ->
  exists vals m1 acts,
    setup powf env m0 = Some (vals, m1) /\
    log m1 = log m0 ++ acts /\
    ~ In ActMqttLoop acts /\
    (wifi_up env = false ->
     forall a, In a acts -> is_mqtt a = false /\ a <> ActSyncTime) /\
    gotPrice (ram m1) = false /\ gotBalance (ram m1) = false /\
    lastPriceUsd (rtc m1) = lastPriceUsd (rtc m0) /\
    lastBalanceBtc (rtc m1) = lastBalanceBtc (rtc m0) /\
    val_priceUsd vals = parseFloatSafe (Some (c_str (lastPriceUsd (rtc m0)))) /\
    val_balanceBtc vals = parseFloatSafe (Some (c_str (lastBalanceBtc (rtc m0)))).
Proof.
  intros Hdown.
  destruct (setup_run powf env m0) as (res & _ & Hrun).
  destruct (final_flags env (ram m0)) as [Fp Fb].
  assert (Dp : delivers TOPIC_PRICE_USD env = false)
    by (unfold delivers, handed_over; rewrite Hdown; reflexivity).
  assert (Db : delivers TOPIC_BALANCE_BTC env = false)
    by (unfold delivers, handed_over; rewrite Hdown; reflexivity).
  set (g1 := final_incoming env (ram m0)) in *.
  rewrite Dp in Fp. rewrite Db in Fb. rewrite Fp, Fb in Hrun.
  eexists. eexists. eexists. split; [exact Hrun|].
  cbn [rtc ram log val_priceUsd val_balanceBtc lastPriceUsd lastBalanceBtc persisted].
  split; [reflexivity|].
  unfold cycle_actions, loops_run. rewrite Hdown, Fp, Fb.
  split.
  { intros Hin. destruct (wifi_up env); cbn [app replicate] in Hin;
      split_membership; discriminate. }
  split.
  { intros Hw a Hin. rewrite Hw in Hin. cbn [app replicate] in Hin.
    split_membership; subst; split; (reflexivity || discriminate). }
  repeat split; assumption || reflexivity.
Qed.

Lemma cycle_without_broker_witness :
  wifi_up env_offline && broker_up env_offline = false /\
  exists vals m1,
    setup powf_base_one env_offline machine_power_on = Some (vals, m1) /\
    lastPriceUsd (rtc m1) = lastPriceUsd (rtc machine_power_on).
Proof.
  split; [reflexivity|].
  destruct (cycle_without_broker powf_base_one env_offline machine_power_on eq_refl)
    as (vals & m1 & acts & Hrun & _ & _ & _ & _ & _ & Hp & _).
  exists vals, m1. split; assumption.
Defined.

(** ** The percentage is at most 100

    Rounding, seen on integers. *)

Lemma digits2_pos_bounds (m : positive) :
  2 ^ (Z.pos (digits2_pos m) - 1) <= Z.pos m < 2 ^ Z.pos (digits2_pos m).
Proof.
  induction m as [m IH|m IH|]; cbn [digits2_pos].
  - rewrite Pos2Z.inj_succ. change (Z.pos m~1) with (2 * Z.pos m + 1).
    replace (Z.succ (Z.pos (digits2_pos m)) - 1)
      with (Z.succ (Z.pos (digits2_pos m) - 1)) by lia.
    rewrite !Z.pow_succ_r by lia.
    generalize dependent (2 ^ (Z.pos (digits2_pos m) - 1)).
    generalize (2 ^ Z.pos (digits2_pos m)). intros; lia.
  - rewrite Pos2Z.inj_succ. change (Z.pos m~0) with (2 * Z.pos m).
    replace (Z.succ (Z.pos (digits2_pos m)) - 1)
      with (Z.succ (Z.pos (digits2_pos m) - 1)) by lia.
    rewrite !Z.pow_succ_r by lia.
    generalize dependent (2 ^ (Z.pos (digits2_pos m) - 1)).
    generalize (2 ^ Z.pos (digits2_pos m)). intros; lia.
  - simpl. lia.
Qed.

(** A positive number below [2^k] has at most [k] bits. *)
Lemma digits2_pos_le (m : positive) (k : Z) :
  Z.pos m < 2 ^ k -> Z.pos (digits2_pos m) <= k.
Proof.
  intros H. destruct (Z.le_gt_cases (Z.pos (digits2_pos m)) k) as [|Hgt]; [assumption|].
  exfalso. pose proof (digits2_pos_bounds m) as [Hlo _].
  assert (0 <= k).
  { destruct (Z.le_gt_cases 0 k); [assumption|].
    rewrite Z.pow_neg_r in H by lia. lia. }
  assert (2 ^ k <= 2 ^ (Z.pos (digits2_pos m) - 1))
    by (apply Z.pow_le_mono_r; lia).
  lia.
Qed.

Lemma shr_1_m (r : shr_record) :
  0 <= shr_m r -> shr_m (shr_1 r) = shr_m r / 2.
Proof.
  destruct r as [m rb sb]. simpl. intros Hm.
  destruct m as [|p|p]; [reflexivity| |lia].
  destruct p as [p|p|]; simpl shr_m.
  - apply Z.div_unique with 1; lia.
  - apply Z.div_unique with 0; lia.
  - reflexivity.
Qed.

Lemma iter_shr_m (p : positive) :
  forall r, 0 <= shr_m r ->
  shr_m (SpecFloat.iter_pos shr_1 p r) = shr_m r / 2 ^ Z.pos p.
Proof.
  assert (Hnn : forall r, 0 <= shr_m r -> 0 <= shr_m (shr_1 r)).
  { intros r Hr. rewrite shr_1_m by exact Hr. apply Z.div_pos; lia. }
  induction p as [p IH|p IH|]; intros r Hr; simpl SpecFloat.iter_pos.
  - assert (Hpow : 0 < 2 ^ Z.pos p) by (apply Z.pow_pos_nonneg; lia).
    assert (H1 : 0 <= shr_m (shr_1 r)) by auto.
    assert (H2 : 0 <= shr_m (SpecFloat.iter_pos shr_1 p (shr_1 r))).
    { rewrite IH by exact H1. apply Z.div_pos; assumption. }
    rewrite IH by exact H2. rewrite IH by exact H1. rewrite shr_1_m by exact Hr.
    rewrite !Z.div_div by lia.
    f_equal. change (Z.pos p~1) with (2 * Z.pos p + 1).
    rewrite Z.pow_add_r, Z.pow_mul_r by lia.
    change (2 ^ 2) with 4. change (2 ^ 1) with 2.
    replace (4 ^ Z.pos p) with (2 ^ Z.pos p * 2 ^ Z.pos p)
      by (rewrite <- Z.pow_mul_l; reflexivity).
    ring.
  - assert (Hpow : 0 < 2 ^ Z.pos p) by (apply Z.pow_pos_nonneg; lia).
    assert (H2 : 0 <= shr_m (SpecFloat.iter_pos shr_1 p r)).
    { rewrite IH by exact Hr. apply Z.div_pos; assumption. }
    rewrite IH by exact H2. rewrite IH by exact Hr.
    rewrite Z.div_div by lia.
    f_equal. change (Z.pos p~0) with (2 * Z.pos p).
    rewrite Z.pow_mul_r by lia.
    change (2 ^ 2) with 4. rewrite <- Z.pow_mul_l. reflexivity.
  - rewrite shr_1_m by exact Hr. reflexivity.
Qed.

Lemma shr_record_of_loc_m (m : Z) (l : location) :
  shr_m (shr_record_of_loc m l) = m.
Proof. destruct l as [|[]]; reflexivity. Qed.

(** What [shr_fexp] does to a non-negative mantissa: nothing when the
    exponent is already the one of the format, otherwise a division by
    the power of two that brings it there. *)
Lemma shr_fexp_spec (m e : Z) (l : location) :
  0 <= m ->
  let n := fexp F32.prec F32.emax (Zdigits2 m + e) - e in
  (n <= 0 /\
   shr_fexp F32.prec F32.emax m e l = (shr_record_of_loc m l, e)) \/
  (0 < n /\
   shr_m (fst (shr_fexp F32.prec F32.emax m e l)) = m / 2 ^ n /\
   snd (shr_fexp F32.prec F32.emax m e l) = e + n).
Proof.
  intros Hm n. unfold shr_fexp. fold n. unfold shr.
  destruct n as [|p|p] eqn:Hn.
  - left. split; [lia|reflexivity].
  - right. split; [lia|]. cbn [fst snd]. split; [|reflexivity].
    rewrite iter_shr_m; rewrite shr_record_of_loc_m; [reflexivity|exact Hm].
  - left. split; [lia|reflexivity].
Qed.

Lemma fexp_binary32 (x : Z) :
  fexp F32.prec F32.emax x = Z.max (x - 24) (-149).
Proof. reflexivity. Qed.

Lemma round_nearest_even_bounds (m : Z) (l : location) :
  m <= round_nearest_even m l <= m + 1.
Proof.
  destruct l as [|[]]; simpl; try lia. destruct (Z.even m); lia.
Qed.

(** [shr_fexp] in one equation: the exponent becomes the larger of the one
    given and the one of the format, and the mantissa is divided by the
    power of two between them. *)
Lemma shr_fexp_value (m e : Z) (l : location) (mrs : shr_record) (e' : Z) :
  0 <= m ->
  shr_fexp F32.prec F32.emax m e l = (mrs, e') ->
  e' = Z.max e (fexp F32.prec F32.emax (Zdigits2 m + e)) /\
  shr_m mrs = m / 2 ^ (e' - e).
Proof.
  intros Hm E. pose proof (shr_fexp_spec m e l Hm) as H. cbv zeta in H.
  rewrite E in H. cbn [fst snd] in H.
  destruct H as [[Hn H]|(Hn & Hv & He)].
  - injection H as -> ->. split; [lia|].
    rewrite shr_record_of_loc_m, Z.sub_diag, Z.div_1_r. reflexivity.
  - split; [lia|]. rewrite Hv. f_equal. f_equal. lia.
Qed.

Lemma pow2_pos (k : Z) : 0 <= k -> 0 < 2 ^ k.
Proof. intros. apply Z.pow_pos_nonneg; lia. Qed.

(** The result of a rounding: a mantissa of at most 24 bits at an exponent
    from -149 on, and a value that exceeds the one rounded by at most one
    unit of the exponent the rounding works at. *)
Lemma binary_round_aux_spec (s : bool) (m e : Z) (l : location) :
  0 <= m ->
  match binary_round_aux F32.prec F32.emax s m e l with
  | S754_finite _ m' e' =>
      -149 <= e' /\ Z.pos (digits2_pos m') <= 24 /\
      (-149 <= e ->
       scaled (Z.pos m') e'
       <= scaled m e
          + 2 ^ (Z.max e (fexp F32.prec F32.emax (Zdigits2 m + e)) + 149))
  | _ => True
  end.
Proof.
  intros Hm. unfold binary_round_aux.
  destruct (shr_fexp F32.prec F32.emax m e l) as [mrs1 e1] eqn:E1.
  destruct (shr_fexp_value _ _ _ _ _ Hm E1) as [He1 Hm1].
  set (r := round_nearest_even (shr_m mrs1) (loc_of_shr_record mrs1)).
  pose proof (round_nearest_even_bounds (shr_m mrs1) (loc_of_shr_record mrs1)) as Hr.
  fold r in Hr.
  assert (Hd1 : 0 <= e1 - e) by lia.
  assert (Hm1' : 0 <= shr_m mrs1)
    by (rewrite Hm1; apply Z.div_pos; [exact Hm|apply pow2_pos; exact Hd1]).
  assert (Hr0 : 0 <= r) by lia.
  destruct (shr_fexp F32.prec F32.emax r e1 loc_Exact) as [mrs2 e2] eqn:E2.
  destruct (shr_fexp_value _ _ _ _ _ Hr0 E2) as [He2 Hm2].
  destruct (shr_m mrs2) as [|m'|] eqn:Em; try exact I.
  destruct (e2 <=? F32.emax - F32.prec); [|exact I].
  rewrite fexp_binary32 in He1, He2.
  assert (Hd2 : 0 <= e2 - e1) by lia.
  pose proof (pow2_pos _ Hd1) as P1. pose proof (pow2_pos _ Hd2) as P2.
  assert (Hq2 : Z.pos m' * 2 ^ (e2 - e1) <= r).
  { rewrite Hm2, Z.mul_comm. apply Z.mul_div_le. exact P2. }
  assert (Hq1 : shr_m mrs1 * 2 ^ (e1 - e) <= m).
  { rewrite Hm1, Z.mul_comm. apply Z.mul_div_le. exact P1. }
  split; [lia|]. split.
  - apply digits2_pos_le.
    destruct r as [|pr|pr]; [|clear Hr0|lia].
    { rewrite Z.div_0_l in Hm2 by lia. discriminate. }
    cbn [Zdigits2] in He2.
    pose proof (digits2_pos_bounds pr) as [_ Hpr].
    set (d := Z.pos (digits2_pos pr)) in *.
    set (k := Z.max (d - 24) 0).
    assert (Hk : 0 < 2 ^ k) by (apply pow2_pos; lia).
    assert (Hle : Z.pos pr / 2 ^ (e2 - e1) <= Z.pos pr / 2 ^ k).
    { apply Z.div_le_compat_l; [lia|]. split; [exact Hk|].
      apply Z.pow_le_mono_r; lia. }
    assert (Hlt : Z.pos pr / 2 ^ k < 2 ^ 24).
    { apply Z.div_lt_upper_bound; [exact Hk|].
      rewrite <- Z.pow_add_r by lia.
      eapply Z.lt_le_trans; [exact Hpr|]. apply Z.pow_le_mono_r; lia. }
    lia.
  - intros He. unfold scaled.
    assert (Q : 0 < 2 ^ (e + 149)) by (apply pow2_pos; lia).
    rewrite fexp_binary32, <- He1.
    replace (e2 + 149) with ((e2 - e1) + ((e1 - e) + (e + 149))) by lia.
    replace (e1 + 149) with ((e1 - e) + (e + 149)) by lia.
    rewrite !Z.pow_add_r by lia.
    set (p2 := 2 ^ (e2 - e1)) in *. set (p1 := 2 ^ (e1 - e)) in *.
    set (q := 2 ^ (e + 149)) in *.
    assert (S1 : Z.pos m' * p2 * p1 <= (shr_m mrs1 + 1) * p1).
    { apply Z.mul_le_mono_nonneg_r; lia. }
    assert (S2 : Z.pos m' * p2 * p1 <= m + p1) by lia.
    assert (S3 : Z.pos m' * p2 * p1 * q <= (m + p1) * q).
    { apply Z.mul_le_mono_nonneg_r; lia. }
    lia.
Qed.

Lemma binary_round_aux_well_formed (s : bool) (m e : Z) (l : location) :
  0 <= m -> well_formed (binary_round_aux F32.prec F32.emax s m e l).
Proof.
  intros Hm. pose proof (binary_round_aux_spec s m e l Hm) as H.
  destruct (binary_round_aux _ _ _ _ _ _); try exact I.
  split; apply H.
Qed.

Lemma binary_normalize_well_formed (m e : Z) (z : bool) :
  well_formed (binary_normalize F32.prec F32.emax m e z).
Proof.
  destruct m as [|p|p]; [exact I| |]; cbn [binary_normalize]; unfold binary_round;
    destruct (shl_align p e _) as [mz ez];
    apply binary_round_aux_well_formed; lia.
Qed.

Lemma of_int_well_formed (z : Z) : well_formed (F32.of_int z).
Proof. apply binary_normalize_well_formed. Qed.

Lemma mul_well_formed (x y : float) : well_formed (x * y)%f32.
Proof.
  destruct x as [sx|sx| |sx mx ex], y as [sy|sy| |sy my ey]; try exact I.
  apply binary_round_aux_well_formed. lia.
Qed.

Lemma add_well_formed (x y : float) :
  well_formed x -> well_formed y -> well_formed (x + y)%f32.
Proof.
  intros Hx Hy.
  destruct x as [sx|sx| |sx mx ex], y as [sy|sy| |sy my ey];
    try exact I; try assumption.
  - destruct sx, sy; exact I.
  - destruct sx, sy; exact I.
  - apply binary_normalize_well_formed.
Qed.

(** Aligning a mantissa to a smaller exponent keeps the value. *)
Lemma shl_align_scaled (mx : positive) (ex ex' : Z) :
  -149 <= ex -> -149 <= ex' ->
  snd (shl_align mx ex ex') = Z.min ex ex' /\
  scaled (Z.pos (fst (shl_align mx ex ex'))) (snd (shl_align mx ex ex'))
  = scaled (Z.pos mx) ex.
Proof.
  intros Hex Hex'. unfold shl_align.
  destruct (ex' - ex) as [|d|d] eqn:Hd; cbn [fst snd].
  - split; [lia|reflexivity].
  - split; [lia|reflexivity].
  - split; [lia|]. unfold scaled.
    change (Pos.iter xO mx d) with (shift_pos d mx).
    rewrite shift_pos_correct, Z.pow_pos_fold.
    replace (ex + 149) with (Z.pos d + (ex' + 149)) by lia.
    rewrite (Z.pow_add_r 2 (Z.pos d) (ex' + 149)) by lia. ring.
Qed.

(** A value below [2^k] units has its leading bit below position [k]. *)
Lemma scaled_digits (m : positive) (e k : Z) :
  -149 <= e -> scaled (Z.pos m) e < 2 ^ k ->
  Z.pos (digits2_pos m) + e + 149 <= k.
Proof.
  intros He H. unfold scaled in H.
  pose proof (digits2_pos_bounds m) as [Hlo _].
  set (d := Z.pos (digits2_pos m)) in *.
  assert (Hd : 0 <= d - 1) by (unfold d; lia).
  assert (Hq : 0 < 2 ^ (e + 149)) by (apply pow2_pos; lia).
  assert (Hlt : 2 ^ (d - 1 + (e + 149)) < 2 ^ k).
  { rewrite Z.pow_add_r by lia.
    eapply Z.le_lt_trans; [|exact H].
    apply Z.mul_le_mono_nonneg_r; lia. }
  destruct (Z.le_gt_cases (d + e + 149) k) as [|Hgt]; [assumption|].
  exfalso.
  destruct (Z.le_gt_cases 0 k) as [Hk|Hk].
  - assert (2 ^ k <= 2 ^ (d - 1 + (e + 149))) by (apply Z.pow_le_mono_r; lia).
    lia.
  - rewrite (Z.pow_neg_r 2 k) in Hlt by lia.
    assert (0 < 2 ^ (d - 1 + (e + 149))) by (apply pow2_pos; lia). lia.
Qed.

(** The truncation of a binary32 value below 101 is at most 100. *)
Lemma to_int_below_101 (s : bool) (m : positive) (e : Z) :
  -149 <= e -> scaled (Z.pos m) e < 101 * 2 ^ 149 ->
  F32.to_int (S754_finite s m e) <= 100.
Proof.
  intros He H. unfold F32.to_int, scaled in *.
  assert (Ha : 0 <= (if 0 <=? e then Z.pos m * 2 ^ e else Z.pos m / 2 ^ (- e)) <= 100).
  { destruct (0 <=? e) eqn:Hs.
    - apply Z.leb_le in Hs. rewrite Z.pow_add_r in H by lia.
      assert (0 < 2 ^ 149) by (apply pow2_pos; lia).
      assert (0 < 2 ^ e) by (apply pow2_pos; lia).
      split; [lia|].
      assert (Z.pos m * 2 ^ e < 101).
      { apply Z.mul_lt_mono_pos_r with (2 ^ 149); [assumption|]. lia. }
      lia.
    - apply Z.leb_gt in Hs.
      assert (Hp : 0 < 2 ^ (- e)) by (apply pow2_pos; lia).
      assert (Hq : 0 < 2 ^ (e + 149)) by (apply pow2_pos; lia).
      split; [apply Z.div_pos; lia|].
      assert (Z.pos m / 2 ^ (- e) < 101); [|lia].
      apply Z.div_lt_upper_bound; [exact Hp|].
      apply Z.mul_lt_mono_pos_r with (2 ^ (e + 149)); [exact Hq|].
      replace (2 ^ (- e) * 101 * 2 ^ (e + 149))
        with (101 * (2 ^ (- e) * 2 ^ (e + 149))) by ring.
      rewrite <- Z.pow_add_r by lia.
      replace (- e + (e + 149)) with 149 by lia. exact H. }
  destruct s; lia.
Qed.

(** A value that is not above 100, seen on integers. *)
Lemma not_above_100_scaled (m : positive) (e : Z) :
  well_formed (S754_finite false m e) ->
  (S754_finite false m e >? F32.of_int 100)%f32 = false ->
  scaled (Z.pos m) e <= 100 * 2 ^ 149.
Proof.
  intros [He Hd] H.
  change (F32.of_int 100) with (S754_finite false 13107200 (-17)) in H.
  unfold F32.gtb, SFltb in H. cbn [SFcompare] in H.
  assert (Hm : Z.pos m < 2 ^ 24).
  { pose proof (digits2_pos_bounds m) as [_ Hhi].
    eapply Z.lt_le_trans; [exact Hhi|]. apply Z.pow_le_mono_r; lia. }
  unfold scaled.
  destruct (Z.compare_spec (-17) e) as [<-|Hlt|Hgt]; [|discriminate|].
  - fold (Pos.compare 13107200 m) in H.
    assert (Hge : (13107200 >= m)%positive)
      by (intros E; rewrite E in H; discriminate H).
    assert (Hc : Z.pos m <= Z.pos 13107200)
      by (apply Pos2Z.pos_le_pos, Pos.ge_le; exact Hge).
    change (-17 + 149) with 132.
    replace (100 * 2 ^ 149) with (13107200 * 2 ^ 132) by reflexivity.
    apply Z.mul_le_mono_nonneg_r; [|assumption].
    apply Z.pow_nonneg. lia.
  - assert (H1 : 2 ^ (e + 149) <= 2 ^ 131) by (apply Z.pow_le_mono_r; lia).
    assert (H0 : 0 < 2 ^ (e + 149)) by (apply pow2_pos; lia).
    assert (H2 : Z.pos m * 2 ^ (e + 149) <= 2 ^ 24 * 2 ^ 131).
    { apply Z.mul_le_mono_nonneg; lia. }
    eapply Z.le_trans; [exact H2|]. vm_compute. discriminate.
Qed.

(** Rounding a value in [0, 100] to the nearest never gives more than 100. *)
Lemma round_nearest_le_100 (x : float) :
  well_formed x ->
  (x <? F32.of_int 0)%f32 = false ->
  (x >? F32.of_int 100)%f32 = false ->
  F32.to_int (x + F32.half)%f32 <= 100.
Proof.
  intros Hwf Hlo Hhi.
  destruct x as [s|s| |s m e].
  - destruct s; vm_compute; discriminate.
  - destruct s; discriminate.
  - vm_compute. discriminate.
  - destruct s; [discriminate|].
    pose proof (not_above_100_scaled m e Hwf Hhi) as Hval.
    destruct Hwf as [He _].
    change F32.half with (S754_finite false 8388608 (-24)).
    unfold F32.add, SFadd. cbn [cond_Zopp].
    set (ez := Z.min e (-24)).
    assert (Hez : -149 <= ez) by (unfold ez; lia).
    destruct (shl_align_scaled m e ez He Hez) as [E1 V1].
    destruct (shl_align_scaled 8388608 (-24) ez ltac:(lia) Hez) as [E2 V2].
    replace (Z.min e ez) with ez in E1 by (unfold ez; lia).
    replace (Z.min (-24) ez) with ez in E2 by (unfold ez; lia).
    rewrite E1 in V1. rewrite E2 in V2.
    set (m1 := fst (shl_align m e ez)) in *.
    set (m2 := fst (shl_align 8388608 (-24) ez)) in *.
    change (Z.pos m1 + Z.pos m2) with (Z.pos (m1 + m2)).
    cbn [binary_normalize]. unfold binary_round.
    set (ef := fexp F32.prec F32.emax (Z.pos (digits2_pos (m1 + m2)) + ez)).
    assert (Hef : -149 <= ef) by (unfold ef; rewrite fexp_binary32; lia).
    destruct (shl_align_scaled (m1 + m2) ez ef Hez Hef) as [E3 V3].
    destruct (shl_align (m1 + m2) ez ef) as [mz ezz]. cbn [fst snd] in E3, V3.
    assert (Hsum : scaled (Z.pos mz) ezz <= 201 * 2 ^ 148).
    { rewrite V3. unfold scaled in *. rewrite Pos2Z.inj_add, Z.mul_add_distr_r.
      rewrite V1, V2. change (-24 + 149) with 125.
      replace (201 * 2 ^ 148) with (100 * 2 ^ 149 + 8388608 * 2 ^ 125) by reflexivity.
      lia. }
    assert (Hezz : -149 <= ezz) by lia.
    pose proof (binary_round_aux_spec false (Z.pos mz) ezz loc_Exact ltac:(lia)) as B.
    destruct (binary_round_aux _ _ _ _ _ _) as [| | |s' m' e'];
      try (vm_compute; discriminate).
    destruct B as (He' & _ & B). specialize (B Hezz).
    apply to_int_below_101; [exact He'|].
    eapply Z.le_lt_trans; [exact B|].
    assert (Hdig : Z.pos (digits2_pos mz) + ezz + 149 <= 156).
    { apply scaled_digits; [exact Hezz|].
      eapply Z.le_lt_trans; [exact Hsum|]. vm_compute. reflexivity. }
    cbn [Zdigits2]. rewrite fexp_binary32.
    assert (Hu : 2 ^ (Z.max ezz (Z.max (Z.pos (digits2_pos mz) + ezz - 24) (-149)) + 149)
                 <= 2 ^ 132) by (apply Z.pow_le_mono_r; lia).
    eapply Z.le_lt_trans;
      [apply Z.add_le_mono; [exact Hsum|exact Hu]|].
    vm_compute. reflexivity.
Qed.

Lemma interpolate_segment_le_100 (v : float) (i : nat) :
  interpolate_segment v i <= 100.
Proof.
  unfold interpolate_segment. cbv zeta.
  set (soc := (F32.of_int (socAt i) + _)%f32).
  assert (Hwf : well_formed soc)
    by (apply add_well_formed; [apply of_int_well_formed|apply mul_well_formed]).
  destruct (soc <? F32.of_int 0)%f32 eqn:Hneg.
  - vm_compute. discriminate.
  - destruct (soc >? F32.of_int 100)%f32 eqn:Habove.
    + vm_compute. discriminate.
    + apply round_nearest_le_100; assumption.
Qed.

Lemma scan_segments_le_100 (v : float) (todo i : nat) :
  scan_segments v i todo <= 100.
Proof.
  revert i. induction todo as [|todo IH]; intros i; simpl; [lia|].
  destruct (_ && _); [apply interpolate_segment_le_100|apply IH].
Qed.

Lemma battery_percent_le_100 (v : float) : batteryPercentFromVoltage v <= 100.
Proof.
  unfold batteryPercentFromVoltage.
  destruct (v <=? voltAt 0)%f32; [change (socAt 0) with 0; lia|].
  destruct (v >=? voltAt (NUM_POINTS - 1))%f32;
    [change (socAt (NUM_POINTS - 1)) with 100; lia|].
  apply scan_segments_le_100.
Qed.

(** X17.  Whatever float it is given, [batteryPercentFromVoltage] returns a
    percentage between 0 and 100: the clamp and the rounding by [+ 0.5f]
    never let a value escape above 100. *)
Theorem battery_percent_in_range (v : float) :
  0 <= batteryPercentFromVoltage v <= 100.
Proof.
  split; [apply battery_percent_nonneg|apply battery_percent_le_100].
Qed.

(** ** A cycle repeated *)

Lemma persisted_overwrites (last last' buf : list ascii) :
  length last = 16%nat -> length last' = 16%nat ->
  persisted true last buf = persisted true last' buf.
Proof.
  intros Hl Hl'. unfold persisted, strncpy.
  set (text := take 15 (list_ascii_of_string (c_str buf))).
  assert (Ht : (length text <= 15)%nat) by (unfold text; rewrite length_take; lia).
  set (k := text ++ replicate (15 - length text) NUL).
  assert (Hk : length k = 15%nat).
  { unfold k. rewrite length_app, length_replicate. lia. }
  rewrite <- Hk. rewrite !insert_after_prefix by lia.
  f_equal. f_equal. rewrite !drop_ge by lia. reflexivity.
Qed.

(** X18.  The retained data settles: when a cycle is followed by another in
    the same surroundings (the same messages, the same battery sample),
    started on what the first one retained and with any 16-byte incoming
    buffers, the second cycle computes the same values and leaves the
    retained data exactly as the first one left them. *)
Theorem repeated_cycle_settles
    (powf : float -> float -> float) (env : wake_env)
    (m0 : machine) (g2 : incoming) (l2 : list action) :
  arrays_16 m0 ->
  length (priceUsdBuf g2) = 16%nat -> length (balanceBtcBuf g2) = 16%nat ->
  exists vals m1 m2,
    setup powf env m0 = Some (vals, m1) /\
    setup powf env (mkMachine (rtc m1) g2 l2) = Some (vals, m2) /\
    rtc m2 = rtc m1.
Proof.
  intros (Hlp & Hlb & Hbp & Hbb) Hp2 Hb2.
  destruct (setup_run powf env m0) as (res1 & Hres1 & Hrun1).
  destruct (final_flags env (ram m0)) as [Fp1 Fb1].
  destruct (final_texts env (ram m0) Hbp Hbb) as (Lp1 & Lb1 & Tp1 & Tb1).
  set (g1 := final_incoming env (ram m0)) in *.
  match type of Hrun1 with
  | _ = Some (?v, ?m) => set (v1 := v) in *; set (m1 := m) in *
  end.
  destruct (setup_run powf env (mkMachine (rtc m1) g2 l2)) as (res2 & Hres2 & Hrun2).
  destruct (final_flags env g2) as [Fp2 Fb2].
  destruct (final_texts env g2 Hp2 Hb2) as (Lp2 & Lb2 & Tp2 & Tb2).
  cbn [rtc ram log] in Hres2, Hrun2.
  set (g3 := final_incoming env g2) in *.
  assert (Ep : c_str (priceUsdBuf g3) = c_str (priceUsdBuf g1)) by congruence.
  assert (Eb : c_str (balanceBtcBuf g3) = c_str (balanceBtcBuf g1)) by congruence.
  assert (Sp : (String.length (c_str (priceUsdBuf g1)) <= 15)%nat).
  { rewrite Tp1. destruct (last_payload TOPIC_PRICE_USD _);
      [apply stored_text_length|simpl; lia]. }
  assert (Sb : (String.length (c_str (balanceBtcBuf g1)) <= 15)%nat).
  { rewrite Tb1. destruct (last_payload TOPIC_BALANCE_BTC _);
      [apply stored_text_length|simpl; lia]. }
  destruct (persisted_holds_string (gotPrice g1) (lastPriceUsd (rtc m0))
              (priceUsdBuf g1) Hlp) as [Plen _].
  destruct (persisted_holds_string (gotBalance g1) (lastBalanceBtc (rtc m0))
              (balanceBtcBuf g1) Hlb) as [Blen _].
  (* the texts the second cycle parses *)
  assert (Vp : c_str (if gotPrice g3 then priceUsdBuf g3 else lastPriceUsd (rtc m1))
               = c_str (if gotPrice g1 then priceUsdBuf g1 else lastPriceUsd (rtc m0))).
  { rewrite Fp2, <- Fp1. subst m1. cbn [rtc lastPriceUsd].
    destruct (gotPrice g1); [exact Ep|reflexivity]. }
  assert (Vb : c_str (if gotBalance g3 then balanceBtcBuf g3 else lastBalanceBtc (rtc m1))
               = c_str (if gotBalance g1 then balanceBtcBuf g1 else lastBalanceBtc (rtc m0))).
  { rewrite Fb2, <- Fb1. subst m1. cbn [rtc lastBalanceBtc].
    destruct (gotBalance g1); [exact Eb|reflexivity]. }
  rewrite Vp, Vb in Hres2, Hrun2.
  assert (res2 = res1) by congruence. subst res2.
  (* the data the second cycle retains *)
  assert (Rp : persisted (gotPrice g3) (lastPriceUsd (rtc m1)) (priceUsdBuf g3)
               = lastPriceUsd (rtc m1)).
  { rewrite Fp2, <- Fp1. subst m1. cbn [rtc lastPriceUsd].
    destruct (gotPrice g1); [|reflexivity].
    rewrite (persisted_by_text true _ _ _ Ep).
    apply persisted_overwrites; assumption. }
  assert (Rb : persisted (gotBalance g3) (lastBalanceBtc (rtc m1)) (balanceBtcBuf g3)
               = lastBalanceBtc (rtc m1)).
  { rewrite Fb2, <- Fb1. subst m1. cbn [rtc lastBalanceBtc].
    destruct (gotBalance g1); [|reflexivity].
    rewrite (persisted_by_text true _ _ _ Eb).
    apply persisted_overwrites; assumption. }
  rewrite Rp, Rb in Hrun2.
  exists v1, m1. eexists.
  split; [exact Hrun1|]. split; [exact Hrun2|].
  subst m1. reflexivity.
Qed.

Lemma repeated_cycle_settles_witness :
  exists vals m1 m2,
    setup powf_base_one env_balance_only machine_power_on = Some (vals, m1) /\
    setup powf_base_one env_balance_only (mkMachine (rtc m1) incoming_boot [])
    = Some (vals, m2) /\
    rtc m2 = rtc m1.
Proof.
  apply (repeated_cycle_settles powf_base_one env_balance_only
           machine_power_on incoming_boot []).
  - repeat split; reflexivity.
  - reflexivity.
  - reflexivity.
Defined.

(* ================================================================== *)
(** * Part IV: the battery curve, in single precision and exactly *)
(* ================================================================== *)

Lemma battery_below_table (v : float) :
  (v <=? F32.decimal 320 2)%f32 = true -> batteryPercentFromVoltage v = 0.
Proof.
  intros Hv. unfold batteryPercentFromVoltage.
  change (voltAt 0) with (F32.decimal 320 2). rewrite Hv. reflexivity.
Qed.

Lemma battery_above_table (v : float) :
  (v >=? F32.decimal 415 2)%f32 = true -> batteryPercentFromVoltage v = 100.
Proof.
  intros Hv. unfold batteryPercentFromVoltage.
  change (voltAt (NUM_POINTS - 1)) with (F32.decimal 415 2). rewrite Hv.
  destruct (v <=? voltAt 0)%f32 eqn:Hlow; [|reflexivity].
  unfold F32.geb in Hv. fold (F32.leb (F32.decimal 415 2) v) in Hv.
  pose proof (leb_trans _ _ _ Hv Hlow) as Habs.
  vm_compute in Habs. discriminate.
Qed.

Lemma centivolts_agree :
  forallb agrees_with_exact_curve centivolts = true.
Proof. vm_compute. reflexivity. Qed.



